(** * uiAppClaude: the tool-call label component, the generation prompt,
      and the virtual project core

    The file has two halves: first all definitions, then all proofs.

    - [ToolActionLabel], the React component that renders a one-line
      description of a tool call, is embedded over a small model of the
      JavaScript values it inspects, with thrown errors made explicit.
    - The path normalizer, the virtual file store and the import resolver
      follow the design document; the import alias is the one the
      generation prompt prescribes.

    Strings are byte strings; the only character the code looks for is
    the separator "/", which is a single unit in every encoding of
    JavaScript strings, so splitting is the same on bytes and on UTF-16
    units. *)

From Stdlib Require Import Ascii String List Bool Arith Lia.
From Stdlib Require Import Floats.SpecFloat.
From stdpp Require Import gmap strings list fin_maps.

Set Warnings "-register-all".

(** ** JavaScript values and abrupt completion *)

Module Js.

(** What a statement can throw in the code under study. *)
Inductive JsError : Type :=
  | TypeError
  | SyntaxError.

(** The outcome of evaluating an expression: a value, or a thrown error. *)
Inductive Completion (A : Type) : Type :=
  | Normal (a : A)
  | Throw (e : JsError).
Arguments Normal {A} a.
Arguments Throw {A} e.

(** Sequencing: a thrown error skips the rest. *)
#[export] Instance completion_bind : MBind Completion := λ A B k c,
  match c with
  | Normal a => k a
  | Throw e => Throw e
  end.

#[export] Instance completion_fmap : FMap Completion := λ A B f c,
  match c with
  | Normal a => Normal (f a)
  | Throw e => Throw e
  end.

(** The values [JSON.parse] produces and an object literal may hold, plus
    [undefined] for an absent property.  Numbers are IEEE 754 values. *)
Inductive JsValue : Type :=
  | JUndefined
  | JNull
  | JBool (b : bool)
  | JNum (x : spec_float)
  | JStr (s : string)
  | JArr (xs : list JsValue)
  | JObj (props : gmap string JsValue).

(** [ToBoolean]: the falsy values are undefined, null, false, +0, -0, NaN
    and the empty string. *)
Definition truthy (v : JsValue) : bool :=
  match v with
  | JUndefined | JNull => false
  | JBool b => b
  | JNum (S754_zero _) | JNum S754_nan => false
  | JNum _ => true
  | JStr s => negb (String.eqb s "")
  | JArr _ | JObj _ => true
  end.

(** [a || b] *)
Definition or_else (a b : JsValue) : JsValue :=
  if truthy a then a else b.

(** Property read [v.k] for a property name [k] that no prototype defines
    (the component reads only path, command, old_path and new_path): the
    own property of an object, [undefined] on any other non-nullish value,
    a TypeError on null and undefined. *)
Definition get (v : JsValue) (k : string) : Completion JsValue :=
  match v with
  | JUndefined | JNull => Throw TypeError
  | JObj props => Normal (default JUndefined (props !! k))
  | _ => Normal JUndefined
  end.

(** [String.prototype.split] with a one-character separator: the pieces
    between the separators, in order; never an empty array. *)
Fixpoint split (sep : ascii) (s : string) : list string :=
  match s with
  | EmptyString => [EmptyString]
  | String c rest =>
      if Ascii.eqb c sep then EmptyString :: split sep rest
      else match split sep rest with
           | piece :: pieces => String c piece :: pieces
           | [] => [String c EmptyString]
           end
  end.

(** [Array.prototype.pop] as used for its result: the last element, or
    [undefined] (here [None]) on an empty array. *)
Definition pop (xs : list string) : option string := last xs.

End Js.

Export Js.

(** ** The rendered element tree *)

Inductive IconName : Type := FileEdit | FilePlus | Eye | Trash2 | FolderEdit.

Inductive Element : Type :=
  | Tag (name className : string) (children : list Element)
  | Icon (glyph : IconName) (className : string)
  | Text (s : string).

(** The text a reader of the DOM sees ([Node.textContent]). *)
Fixpoint textContent (e : Element) : string :=
  match e with
  | Tag _ _ children =>
      (fix go (es : list Element) : string :=
         match es with
         | [] => ""
         | e' :: es' => textContent e' +:+ go es'
         end) children
  | Icon _ _ => ""
  | Text s => s
  end.

(** The icons drawn anywhere in the element. *)
Fixpoint icons (e : Element) : list (IconName * string) :=
  match e with
  | Tag _ _ children =>
      (fix go (es : list Element) : list (IconName * string) :=
         match es with
         | [] => []
         | e' :: es' => icons e' ++ go es'
         end) children
  | Icon g c => [(g, c)]
  | Text _ => []
  end.

(** ** ToolActionLabel *)

(** The [args] prop: [string | Record<string, any>], or absent. *)
Inductive Args : Type :=
  | ArgsAbsent
  | ArgsString (s : string)
  | ArgsObject (props : gmap string JsValue).

Record ActionMessage : Type := { icon : Element; text : string }.

(** A string used as a condition: only the empty string is falsy. *)
Definition nonEmpty (s : string) : bool := negb (String.eqb s "").

Section ToolActionLabel.

(** The runtime's [JSON.parse]: a value, or a thrown SyntaxError. *)
Variable JSON_parse : string → Completion JsValue.

(** Lines 13-23: the guarded parse of the [args] prop. *)
Definition parseArgs (args : Args) : JsValue :=
  match args with
  | ArgsString s =>
      if nonEmpty s then
        match JSON_parse s with
        | Normal v => v
        | Throw _ => JObj ∅
        end
      else JObj ∅
  | ArgsObject props => JObj props
  | ArgsAbsent => JObj ∅
  end.

(** [piece || ""] on the result of [pop]. *)
Definition orEmpty (piece : option string) : string :=
  match piece with
  | Some s => if nonEmpty s then s else ""
  | None => ""
  end.

(** [v?.split("/").pop() || ""]: the optional chain stops on a nullish
    [v]; on a string it yields the last piece; on any other value the
    [split] property is undefined and calling it throws. *)
Definition fileNameOf (v : JsValue) : Completion string :=
  match v with
  | JUndefined | JNull => Normal ""
  | JStr s => Normal (orEmpty (pop (split "/" s)))
  | _ => Throw TypeError
  end.

(** A [case "lit":] test of a [switch]: strict equality with a string. *)
Definition isCase (v : JsValue) (lit : string) : bool :=
  match v with
  | JStr s => String.eqb s lit
  | _ => false
  end.

(** Lines 25-88. *)
Definition getActionMessage (toolName : string) (parsedArgs : JsValue)
  : Completion ActionMessage :=
  path ← get parsedArgs "path";
  fileName ← fileNameOf path;
  command ← get parsedArgs "command";
  if decide (toolName = "str_replace_editor") then
    if isCase command "create" then
      Normal {| icon := Icon FilePlus "w-3 h-3 text-green-600";
                text := if nonEmpty fileName then "Creating " +:+ fileName
                        else "Creating file" |}
    else if isCase command "str_replace" then
      Normal {| icon := Icon FileEdit "w-3 h-3 text-blue-600";
                text := if nonEmpty fileName then "Editing " +:+ fileName
                        else "Editing file" |}
    else if isCase command "insert" then
      Normal {| icon := Icon FileEdit "w-3 h-3 text-blue-600";
                text := if nonEmpty fileName then "Inserting into " +:+ fileName
                        else "Inserting into file" |}
    else if isCase command "view" then
      Normal {| icon := Icon Eye "w-3 h-3 text-purple-600";
                text := if nonEmpty fileName then "Viewing " +:+ fileName
                        else "Viewing file" |}
    else
      Normal {| icon := Icon FileEdit "w-3 h-3 text-neutral-600";
                text := if nonEmpty fileName then "Editing " +:+ fileName
                        else "Editing file" |}
  else if decide (toolName = "file_manager") then
    old_path ← get parsedArgs "old_path";
    oldFileName ← fileNameOf (or_else old_path path);
    if isCase command "delete" then
      Normal {| icon := Icon Trash2 "w-3 h-3 text-red-600";
                text := "Deleting " +:+ oldFileName |}
    else if isCase command "rename" then
      new_path ← get parsedArgs "new_path";
      newFileName ← fileNameOf new_path;
      Normal {| icon := Icon FolderEdit "w-3 h-3 text-orange-600";
                text := "Renaming " +:+ oldFileName +:+ " to " +:+ newFileName |}
    else
      Normal {| icon := Icon FolderEdit "w-3 h-3 text-neutral-600";
                text := if nonEmpty oldFileName then "Managing " +:+ oldFileName
                        else "Managing files" |}
  else
    Normal {| icon := Icon FileEdit "w-3 h-3 text-neutral-600";
              text := toolName |}.

(** Lines 10-98: the component. *)
Definition ToolActionLabel (toolName : string) (args : Args)
  : Completion Element :=
  msg ← getActionMessage toolName (parseArgs args);
  Normal (Tag "div" "inline-flex items-center gap-2"
            [icon msg; Tag "span" "text-neutral-700" [Text (text msg)]]).

End ToolActionLabel.

(** An object literal: later entries win, as in JavaScript. *)
Definition obj (entries : list (string * JsValue)) : gmap string JsValue :=
  list_to_map (reverse entries).

(** [JSON.parse] on text that is not JSON: a SyntaxError.  It stands in
    for the runtime parser in runs that never give it JSON text, where
    [args] is an object, absent, or an unparsable string. *)
Definition noParse : string → Completion JsValue := λ _, Throw SyntaxError.

(** Sample arguments, as the test suite builds them. *)
Definition createButtonArgs : Args :=
  ArgsObject (obj [("command", JStr "create");
                   ("path", JStr "/components/Button.jsx")]).

Definition createRelativeArgs : Args :=
  ArgsObject (obj [("command", JStr "create");
                   ("path", JStr "components/Button.jsx")]).

Definition renameButtonArgs : Args :=
  ArgsObject (obj [("command", JStr "rename");
                   ("old_path", JStr "/components/Button.jsx");
                   ("new_path", JStr "/components/ActionButton.jsx")]).

(** A delete that names both an old_path and a path. *)
Definition deleteBothPathsArgs : Args :=
  ArgsObject (obj [("command", JStr "delete");
                   ("old_path", JStr "/a/x.js");
                   ("path", JStr "/b/y.js")]).

(** The number 42. *)
Definition num42 : JsValue := JNum (S754_finite false 21 1).

(** ** Vocabulary of the statements *)

(** [occurs c s]: the character [c] appears in [s]. *)
Fixpoint occurs (c : ascii) (s : string) : bool :=
  match s with
  | EmptyString => false
  | String a rest => Ascii.eqb a c || occurs c rest
  end.

(** [f] is the final segment of the path [p]: what follows the last "/"
    of [p], or all of [p] when it has no "/". *)
Definition finalSegment (p f : string) : Prop :=
  occurs "/" f = false ∧ (p = f ∨ ∃ pre, p = pre +:+ String "/" f).

(** The final segment of a property value that is a path, absent or null. *)
Definition segmentOf (v : JsValue) (f : string) : Prop :=
  match v with
  | JStr p => finalSegment p f
  | JUndefined | JNull => f = ""
  | _ => False
  end.

(** A property value the component can take a file name from: a string,
    or nothing. *)
Definition isPathLike (v : JsValue) : Prop :=
  match v with
  | JStr _ | JUndefined | JNull => True
  | _ => False
  end.

(** The name file_manager shows for the source of the operation: the final
    segment of old_path when that is a non-empty string, else of path. *)
Definition oldSegment (old_path path : JsValue) (f : string) : Prop :=
  isPathLike path ∧
  match old_path with
  | JStr o => if nonEmpty o then finalSegment o f else segmentOf path f
  | JUndefined | JNull => segmentOf path f
  | _ => False
  end.

(** The leading words of a str_replace_editor label, by command. *)
Definition editorVerb (command : JsValue) : string :=
  if isCase command "create" then "Creating "
  else if isCase command "str_replace" then "Editing "
  else if isCase command "insert" then "Inserting into "
  else if isCase command "view" then "Viewing "
  else "Editing ".

(** The [args] values the component is meant to survive: absent, the empty
    string, a string [JSON.parse] rejects, or an object whose path,
    old_path and new_path are each a string or nothing. *)
Definition graceful (JSON_parse : string → Completion JsValue) (args : Args)
  : Prop :=
  match args with
  | ArgsAbsent => True
  | ArgsString s => s = "" ∨ ∃ e, JSON_parse s = Throw e
  | ArgsObject props =>
      isPathLike (default JUndefined (props !! "path")) ∧
      isPathLike (default JUndefined (props !! "old_path")) ∧
      isPathLike (default JUndefined (props !! "new_path"))
  end.

(** The label an unusable [args] degrades to. *)
Definition genericText (toolName : string) : string :=
  if decide (toolName = "str_replace_editor") then "Editing file"
  else if decide (toolName = "file_manager") then "Managing files"
  else toolName.

(** The text shown by a rendered label. *)
Definition shownText (r : Completion Element) : Completion string :=
  textContent <$> r.

(** * The virtual project core

    The path normalizer, the virtual file store and the import resolver
    are not among the source files at hand; the definitions below follow
    the design document, section by section. *)

(** Modelled from the spec: the structural error kinds (design section 7);
    the store's code is missing. *)
Inductive StoreError : Type := PathError | NotFoundError | ConflictError.

Inductive Result (A : Type) : Type :=
  | Ok (a : A)
  | Failed (e : StoreError).
Arguments Ok {A} a.
Arguments Failed {A} e.

#[export] Instance result_bind : MBind Result := λ A B k r,
  match r with
  | Ok a => k a
  | Failed e => Failed e
  end.

(** ** Path Normalizer *)

Definition startsWithSep (s : string) : bool :=
  match s with
  | String c _ => Ascii.eqb c "/"
  | EmptyString => false
  end.

(** Rule 2: prepend "/" if absent. *)
Definition prependSep (s : string) : string :=
  if startsWithSep s then s else String "/" s.

(** Rule 3: collapse consecutive separators to one. *)
Fixpoint collapseSeps (s : string) : string :=
  match s with
  | EmptyString => EmptyString
  | String a rest =>
      match rest with
      | EmptyString => s
      | String b _ =>
          if Ascii.eqb a "/" && Ascii.eqb b "/" then collapseSeps rest
          else String a (collapseSeps rest)
      end
  end.

(** [s] without its last character when that is a separator. *)
Fixpoint dropLastSep (s : string) : string :=
  match s with
  | EmptyString => EmptyString
  | String a EmptyString => if Ascii.eqb a "/" then EmptyString else s
  | String a rest => String a (dropLastSep rest)
  end.

(** Rule 4: strip a trailing separator unless the result is the root. *)
Definition stripTrailingSep (s : string) : string :=
  if String.eqb s "/" then s else dropLastSep s.

(** Rule 5: ".." occurs as a segment. *)
Definition hasParentSegment (s : string) : bool :=
  existsb (String.eqb "..") (split "/" s).

(** Modelled from the spec: the Path Normalizer (design section 4.1), whose
    code is not among the sources.  The rules are applied in the order the
    design lists them. *)
Definition normalize (raw : string) : Result string :=
  if String.eqb raw "" then Failed PathError
  else
    let p := stripTrailingSep (collapseSeps (prependSep raw)) in
    if hasParentSegment raw then Failed PathError else Ok p.

(** ** Paths as segment lists *)

(** The non-empty pieces of a path between its separators. *)
Definition segments (p : string) : list string :=
  filter (λ piece, piece ≠ "") (split "/" p).

(** Each segment preceded by a separator. *)
Definition cat (segs : list string) : string :=
  foldr (λ seg acc, String "/" (seg +:+ acc)) "" segs.

(** The path with the given segments; the root has none. *)
Definition render (segs : list string) : string :=
  match segs with
  | [] => "/"
  | _ => cat segs
  end.

(** The proper ancestors of a path, from the root down. *)
Definition ancestors (p : string) : list string :=
  (λ i, render (take i (segments p))) <$> seq 0 (length (segments p)).

(** ** Virtual File Store *)

(** Modelled from the spec: the Node of the data model (design section
    3), whose declaration is missing.  A node is a file with its text and
    last-modified marker, or a directory with the names of its children;
    the node's path is its key in the store. *)
Inductive Node : Type :=
  | File (content : string) (modified : nat)
  | Directory (children : gset string).

(** Modelled from the spec: the Virtual File Store of the data model
    (design section 3), whose declaration is missing: nodes keyed by
    normalized path, and the logical clock that stamps modifications. *)
Record Store : Type := { nodes : gmap string Node; clock : nat }.

Inductive Kind : Type := KFile | KDirectory.

Definition kindOf (s : Store) (p : string) : option Kind :=
  match nodes s !! p with
  | Some (File _ _) => Some KFile
  | Some (Directory _) => Some KDirectory
  | None => None
  end.

Definition contentOf (s : Store) (p : string) : option string :=
  match nodes s !! p with
  | Some (File c _) => Some c
  | _ => None
  end.

Definition isFile (s : Store) (p : string) : bool :=
  match nodes s !! p with
  | Some (File _ _) => true
  | _ => false
  end.

Definition isDirectory (s : Store) (p : string) : bool :=
  match nodes s !! p with
  | Some (Directory _) => true
  | _ => false
  end.

(** Modelled from the spec: the store as created, holding the root
    directory only (design section 3); the constructor is missing. *)
Definition emptyStore : Store :=
  {| nodes := {[ "/" := Directory ∅ ]}; clock := 0 |}.

(** The directory [dir] gains the child [name]; it is created when
    missing. *)
Definition link (dir name : string) (m : gmap string Node) : gmap string Node :=
  match m !! dir with
  | Some (Directory children) => <[dir := Directory (children ∪ {[name]})]> m
  | _ => <[dir := Directory {[name]}]> m
  end.

(** Walk down [rest] below the directory [prefix], creating every
    directory on the way and entering each segment in its parent. *)
Fixpoint ensureDirs (prefix rest : list string) (m : gmap string Node)
  : gmap string Node :=
  match rest with
  | [] => m
  | name :: rest' =>
      ensureDirs (prefix ++ [name]) rest' (link (render prefix) name m)
  end.

(** A write at [p] collides with the store: an ancestor is a file, or [p]
    itself is a directory. *)
Definition conflicting (s : Store) (p : string) : bool :=
  existsb (isFile s) (ancestors p) || isDirectory s p.

(** Modelled from the spec: [write(path, content)] of the Virtual File
    Store (design section 4.2), whose code is missing.  A file written
    over a directory collides with an incompatible node (section 7). *)
Definition write (s : Store) (path content : string) : Result Store :=
  p ← normalize path;
  if conflicting s p then Failed ConflictError
  else
    Ok {| nodes := <[p := File content (clock s)]>
                     (ensureDirs [] (segments p) (nodes s));
          clock := S (clock s) |}.

(** Modelled from the spec: [read(path)] of the Virtual File Store (design
    section 4.2), whose code is missing. *)
Definition read (s : Store) (path : string) : Result string :=
  p ← normalize path;
  match nodes s !! p with
  | Some (File c _) => Ok c
  | _ => Failed NotFoundError
  end.

(** [name] leaves the children of the directory [dir]. *)
Definition unlink (dir name : string) (m : gmap string Node) : gmap string Node :=
  match m !! dir with
  | Some (Directory children) => <[dir := Directory (children ∖ {[name]})]> m
  | _ => m
  end.

(** Modelled from the spec: [remove(path)] of the Virtual File Store
    (design section 4.2), whose code is missing.  The design names no
    error kind for the root; ConflictError is used. *)
Definition remove (s : Store) (path : string) : Result Store :=
  p ← normalize path;
  match reverse (segments p) with
  | [] => Failed ConflictError
  | name :: parent =>
      match nodes s !! p with
      | None => Failed NotFoundError
      | Some _ =>
          Ok {| nodes := unlink (render (reverse parent)) name
                           (filter (λ kv, kv.1 ≠ p ∧ p ∉ ancestors kv.1) (nodes s));
                clock := S (clock s) |}
      end
  end.

(** Modelled from the spec: [snapshot()] of the Virtual File Store (design
    section 4.2), whose code is missing: every file path with its content;
    directories are not recorded. *)
Definition snapshot (s : Store) : gmap string string :=
  omap (λ n, match n with File c _ => Some c | Directory _ => None end)
       (nodes s).

Fixpoint writeAll (entries : list (string * string)) (s : Store)
  : Result Store :=
  match entries with
  | [] => Ok s
  | (p, c) :: rest => s' ← write s p c; writeAll rest s'
  end.

(** Modelled from the spec: [restore(snapshot)] of the Virtual File Store
    (design section 4.2), whose code is missing: the contents are replaced
    by the files of the mapping, written one by one into a cleared store,
    which rebuilds the implied directories; a failing entry fails the
    whole restore. *)
Definition restore (s : Store) (snap : gmap string string) : Result Store :=
  writeAll (map_to_list snap) {| nodes := nodes emptyStore; clock := clock s |}.

(** ** The import alias *)

(** The alias for project-root imports, as [generationPrompt] prescribes
    it (line 13: an import alias of '@/'). *)
Definition aliasPrefix : string := "@/".

(** ** Import Resolver *)

Inductive SpecifierKind : Type := Stylesheet | Aliased | Relative | Bare.

(** Modelled from the spec: the resolution targets (design section 3),
    whose declaration is missing: the handle of the in-memory module
    compiled from the file at a path, a network module address, or the
    placeholder. *)
Inductive Target : Type :=
  | ModuleHandle (path : string)
  | NetworkModule (package : string)
  | Placeholder.

(** [suffix] ends [s]. *)
Fixpoint endsWith (suffix s : string) : bool :=
  String.eqb suffix s ||
  match s with
  | EmptyString => false
  | String _ rest => endsWith suffix rest
  end.

(** An aliased specifier rewritten to a store-relative path: the alias
    stands for the project root. *)
Definition aliasToPath (specifier : string) : string :=
  String "/" (String.substring (String.length aliasPrefix)
                (String.length specifier - String.length aliasPrefix)
                specifier).

(** The file a candidate path matches, if any. *)
Definition tryPath (s : Store) (candidate : string) : option string :=
  match normalize candidate with
  | Ok p => if isFile s p then Some p else None
  | Failed _ => None
  end.

Fixpoint firstMatch (s : Store) (candidates : list string) : option string :=
  match candidates with
  | [] => None
  | c :: rest =>
      match tryPath s c with
      | Some p => Some p
      | None => firstMatch s rest
      end
  end.

(** [q] is the file of the first candidate that matches: no candidate
    before it matches any file. *)
Definition firstMatching (s : Store) (candidates : list string) (q : string)
  : Prop :=
  ∃ i c, candidates !! i = Some c ∧ tryPath s c = Some q ∧
    ∀ j c', j < i → candidates !! j = Some c' → tryPath s c' = None.

Section Resolver.

(** The configuration the design leaves open: the recognized source
    extensions in search order, the stylesheet extensions, and the test
    for a relative or local specifier. *)
Variable sourceExtensions : list string.
Variable stylesheetExtensions : list string.
Variable isLocalSpecifier : string → bool.

(** The literal path, then the path with each source extension, then the
    index file of the path as a directory under each extension. *)
Definition candidatePaths (path : string) : list string :=
  path :: ((λ e, path +:+ e) <$> sourceExtensions)
       ++ ((λ e, path +:+ "/index" +:+ e) <$> sourceExtensions).

(** Modelled from the spec: rule 3 of the Import Resolver (design section
    4.4), whose code is missing: the first match wins; no match gives the
    placeholder. *)
Definition resolveLocal (s : Store) (path : string) : Target :=
  match firstMatch s (candidatePaths path) with
  | Some p => ModuleHandle p
  | None => Placeholder
  end.

(** Modelled from the spec: the classification of a specifier into the
    four kinds, in priority order (design section 4.4); the code is
    missing. *)
Definition classify (specifier : string) : SpecifierKind :=
  if existsb (λ e, endsWith e specifier) stylesheetExtensions then Stylesheet
  else if String.prefix aliasPrefix specifier then Aliased
  else if isLocalSpecifier specifier then Relative
  else Bare.

(** Modelled from the spec: the Import Resolver's rule for one specifier
    (design section 4.4), whose code is not among the sources.  A
    stylesheet specifier has no entry in the resolution map. *)
Definition resolve (s : Store) (specifier : string) : option Target :=
  match classify specifier with
  | Stylesheet => None
  | Aliased => Some (resolveLocal s (aliasToPath specifier))
  | Relative => Some (resolveLocal s specifier)
  | Bare => Some (NetworkModule specifier)
  end.

End Resolver.

(** The invariant of the data model: the root is a directory, every key
    is a normalized path, and every ancestor of a node is a directory. *)
Definition wellFormed (s : Store) : Prop :=
  kindOf s "/" = Some KDirectory ∧
  ∀ k, is_Some (nodes s !! k) →
    normalize k = Ok k ∧
    ∀ a, a ∈ ancestors k → kindOf s a = Some KDirectory.

(** Every directory other than the root has a file somewhere beneath it. *)
Definition populated (s : Store) : Prop :=
  ∀ k, kindOf s k = Some KDirectory →
    k = "/" ∨ ∃ p, kindOf s p = Some KFile ∧ k ∈ ancestors p.

(** [k] is a directory that lists [name]. *)
Definition listsChild (m : gmap string Node) (k name : string) : Prop :=
  ∃ children, m !! k = Some (Directory children) ∧ name ∈ children.

(** The inverse of [split]: the pieces with a separator between each two. *)
Fixpoint join (sep : ascii) (pieces : list string) : string :=
  match pieces with
  | [] => ""
  | [piece] => piece
  | piece :: rest => piece +:+ String sep (join sep rest)
  end.

(** The separator left at the end when the last piece is empty. *)
Definition trailing (pieces : list string) : string :=
  if decide (last pieces = Some "") then "/" else "".

(** A segment a normalized path can hold: non-empty and separator-free. *)
Definition validSegment (seg : string) : Prop :=
  seg ≠ "" ∧ occurs "/" seg = false.

(** ** Vocabulary for the component's further properties *)

(** The value read for property [k] of a non-nullish [v]. *)
Definition prop (v : JsValue) (k : string) : JsValue :=
  match v with
  | JObj props => default JUndefined (props !! k)
  | _ => JUndefined
  end.

Definition isNullish (v : JsValue) : bool :=
  match v with
  | JUndefined | JNull => true
  | _ => false
  end.

(** [isPathLike] as a test. *)
Definition pathLike (v : JsValue) : bool :=
  match v with
  | JStr _ | JUndefined | JNull => true
  | _ => false
  end.

(** The parsed arguments on which building the message fails. *)
Definition mustThrow (toolName : string) (v : JsValue) : bool :=
  isNullish v
  || negb (pathLike (prop v "path"))
  || (bool_decide (toolName = "file_manager")
      && (negb (pathLike (or_else (prop v "old_path") (prop v "path")))
          || (isCase (prop v "command") "rename"
              && negb (pathLike (prop v "new_path"))))).

(** The icon of each branch, by tool and command. *)
Definition iconFor (toolName : string) (command : JsValue) : Element :=
  if decide (toolName = "str_replace_editor") then
    if isCase command "create" then Icon FilePlus "w-3 h-3 text-green-600"
    else if isCase command "str_replace" then Icon FileEdit "w-3 h-3 text-blue-600"
    else if isCase command "insert" then Icon FileEdit "w-3 h-3 text-blue-600"
    else if isCase command "view" then Icon Eye "w-3 h-3 text-purple-600"
    else Icon FileEdit "w-3 h-3 text-neutral-600"
  else if decide (toolName = "file_manager") then
    if isCase command "delete" then Icon Trash2 "w-3 h-3 text-red-600"
    else if isCase command "rename" then Icon FolderEdit "w-3 h-3 text-orange-600"
    else Icon FolderEdit "w-3 h-3 text-neutral-600"
  else Icon FileEdit "w-3 h-3 text-neutral-600".

(** The properties of the arguments a run reads, by tool and command. *)
Definition readKeys (toolName : string) (command : JsValue) : list string :=
  "path" :: "command" ::
  (if decide (toolName = "file_manager") then
     "old_path" :: (if isCase command "rename" then ["new_path"] else [])
   else []).

(** Sample arguments: a script of edits with properties the label never
    shows, and a rename whose old_path is the number zero. *)
Definition replaceArgs : gmap string JsValue :=
  obj [("command", JStr "str_replace"); ("path", JStr "/App.jsx");
       ("old_str", JStr "old code"); ("new_str", JStr "new code")].

Definition zeroOldPathArgs : gmap string JsValue :=
  obj [("command", JStr "rename"); ("old_path", JNum (S754_zero false));
       ("path", JStr "/a/b.js"); ("new_path", JStr "/a/c.js")].

(** ** Splitting a path *)

Section Split.
Variable sep : ascii.

Lemma split_nonempty s : split sep s ≠ [].
Proof. destruct s as [|c s]; simpl; [done|]. by repeat case_match. Qed.

Lemma split_no_sep s : occurs sep s = false → split sep s = [s].
Proof.
  induction s as [|c s IH]; simpl; [done|].
  intros [Hc Hs]%orb_false_iff. rewrite Hc, (IH Hs). done.
Qed.

Lemma split_app pre f :
  split sep (pre +:+ String sep f) = split sep pre ++ split sep f.
Proof.
  induction pre as [|c pre IH]; simpl.
  - by rewrite Ascii.eqb_refl.
  - rewrite IH. destruct (Ascii.eqb c sep); [done|].
    destruct (split sep pre) eqn:E; [by apply split_nonempty in E|done].
Qed.

Lemma last_split_app pre f :
  occurs sep f = false → last (split sep (pre +:+ String sep f)) = Some f.
Proof.
  intros Hf. rewrite split_app, (split_no_sep _ Hf). apply last_snoc.
Qed.

End Split.

Lemma finalSegment_pop p f :
  finalSegment p f → pop (split "/" p) = Some f.
Proof.
  intros [Hf [->|[pre ->]]]; unfold pop.
  - by rewrite (split_no_sep _ _ Hf).
  - by apply last_split_app.
Qed.

Lemma finalSegment_exists p : ∃ f, finalSegment p f.
Proof.
  induction p as [|c p [f [Hf Hp]]].
  - exists "". split; [done|by left].
  - destruct Hp as [->|[pre ->]].
    + destruct (Ascii.eqb c "/") eqn:Hc.
      * apply Ascii.eqb_eq in Hc as ->. exists f. split; [done|].
        right. by exists "".
      * exists (String c f). split; [|by left]. simpl. by rewrite Hc, Hf.
    + exists f. split; [done|]. right. by exists (String c pre).
Qed.

Lemma finalSegment_unique p f g : finalSegment p f → finalSegment p g → f = g.
Proof.
  intros Hf%finalSegment_pop Hg%finalSegment_pop. congruence.
Qed.

Lemma orEmpty_Some f : orEmpty (Some f) = f.
Proof. unfold orEmpty, nonEmpty. by destruct (String.eqb_spec f ""). Qed.

Lemma fileNameOf_segment v f : segmentOf v f → fileNameOf v = Normal f.
Proof.
  destruct v; simpl; try done; try by intros ->.
  intros ->%finalSegment_pop. by rewrite orEmpty_Some.
Qed.

Lemma nonEmpty_true f : f ≠ "" → nonEmpty f = true.
Proof. unfold nonEmpty. by destruct (String.eqb_spec f ""). Qed.

Lemma isCase_true v lit : isCase v lit = true ↔ v = JStr lit.
Proof.
  destruct v; simpl; try (split; [done|congruence]).
  rewrite String.eqb_eq. split; congruence.
Qed.

Lemma isCase_false v lit : v ≠ JStr lit → isCase v lit = false.
Proof. intros H. apply not_true_is_false. by rewrite isCase_true. Qed.

Lemma append_empty_r s : s +:+ "" = s.
Proof.
  induction s as [|c s IH]; [done|].
  change (String c (s +:+ "") = String c s). by rewrite IH.
Qed.

(** The text shown by the component's element is the message's text. *)
Lemma textContent_label g c t :
  textContent (Tag "div" "inline-flex items-center gap-2"
                 [Icon g c; Tag "span" "text-neutral-700" [Text t]]) = t.
Proof.
  change ((t +:+ "") +:+ "" = t). by rewrite !append_empty_r.
Qed.

(** Case analysis along a computation known to complete normally: the
    throwing case of each bind contradicts [H : _ = Normal _]. *)
Ltac run_normal H :=
  repeat match type of H with
    | (?c ≫= _) = Normal _ =>
        let E := fresh "E" in
        destruct c eqn:E; cbn in H; [|discriminate H]
    | (if ?b then _ else _) = Normal _ => destruct b eqn:?
    | Normal _ = Normal _ => injection H as <-
    end.

(** Every message carries an icon element. *)
Lemma message_icon toolName v m :
  getActionMessage toolName v = Normal m → ∃ g c, icon m = Icon g c.
Proof.
  unfold getActionMessage. intros H. run_normal H; cbn; eauto.
Qed.

(** The component throws exactly when building the message throws, and
    otherwise shows the message's text. *)
Lemma shownText_message JSON_parse toolName args :
  shownText (ToolActionLabel JSON_parse toolName args)
  = text <$> getActionMessage toolName (parseArgs JSON_parse args).
Proof.
  unfold shownText, ToolActionLabel.
  destruct (getActionMessage _ _) as [m|] eqn:E; [|done].
  destruct (message_icon _ _ _ E) as (g & c & Hi).
  unfold mbind, fmap, completion_bind, completion_fmap. rewrite Hi.
  by rewrite textContent_label.
Qed.

(** ** The component on the inputs of its test suite *)

Example test_create_with_file_name :
  shownText (ToolActionLabel noParse "str_replace_editor"
    (ArgsObject (obj [("command", JStr "create");
                      ("path", JStr "/components/Button.jsx");
                      ("file_text", JStr "export default Button")])))
  = Normal "Creating Button.jsx".
Proof. reflexivity. Qed.

Example test_insert_with_file_name :
  shownText (ToolActionLabel noParse "str_replace_editor"
    (ArgsObject (obj [("command", JStr "insert");
                      ("path", JStr "/components/Header.tsx");
                      ("new_str", JStr "new line")])))
  = Normal "Inserting into Header.tsx".
Proof. reflexivity. Qed.

Example test_unknown_command_without_file_name :
  shownText (ToolActionLabel noParse "str_replace_editor"
    (ArgsObject (obj [("command", JStr "unknown")])))
  = Normal "Editing file".
Proof. reflexivity. Qed.

Example test_delete_with_file_name :
  shownText (ToolActionLabel noParse "file_manager"
    (ArgsObject (obj [("command", JStr "delete");
                      ("path", JStr "/components/OldComponent.jsx")])))
  = Normal "Deleting OldComponent.jsx".
Proof. reflexivity. Qed.

Example test_manager_unknown_without_file_name :
  shownText (ToolActionLabel noParse "file_manager"
    (ArgsObject (obj [("command", JStr "unknown")])))
  = Normal "Managing files".
Proof. reflexivity. Qed.

Example test_missing_args :
  shownText (ToolActionLabel noParse "str_replace_editor" ArgsAbsent)
  = Normal "Editing file".
Proof. reflexivity. Qed.

Example test_invalid_json_args :
  shownText (ToolActionLabel noParse "str_replace_editor"
               (ArgsString "invalid json{"))
  = Normal "Editing file".
Proof. reflexivity. Qed.

Example test_unknown_tool_name :
  shownText (ToolActionLabel noParse "unknown_tool"
    (ArgsObject (obj [("command", JStr "test"); ("path", JStr "/file.js")])))
  = Normal "unknown_tool".
Proof. reflexivity. Qed.

Example test_icon_for_delete :
  icons <$> ToolActionLabel noParse "file_manager"
    (ArgsObject (obj [("command", JStr "delete"); ("path", JStr "/test.js")]))
  = Normal [(Trash2, "w-3 h-3 text-red-600")].
Proof. reflexivity. Qed.

(** ** The str_replace_editor labels *)

Section EditorLabels.
Variable JSON_parse : string → Completion JsValue.
Let parsed := parseArgs JSON_parse.
Let label := ToolActionLabel JSON_parse.

(** The editor branch with a known path: the text is the verb followed by
    the file name, or by the generic word when the name is empty. *)
Lemma editor_text args command v f :
  get (parsed args) "command" = Normal command →
  get (parsed args) "path" = Normal v →
  segmentOf v f →
  shownText (label "str_replace_editor" args) = Normal (
    if isCase command "create" then
      if nonEmpty f then "Creating " +:+ f else "Creating file"
    else if isCase command "str_replace" then
      if nonEmpty f then "Editing " +:+ f else "Editing file"
    else if isCase command "insert" then
      if nonEmpty f then "Inserting into " +:+ f else "Inserting into file"
    else if isCase command "view" then
      if nonEmpty f then "Viewing " +:+ f else "Viewing file"
    else if nonEmpty f then "Editing " +:+ f else "Editing file").
Proof.
  unfold label, parsed. intros Hc Hp Hf.
  rewrite shownText_message. unfold getActionMessage.
  rewrite Hp, Hc. cbn. rewrite (fileNameOf_segment _ _ Hf). cbn.
  by repeat case_match.
Qed.

(** C1: for str_replace_editor, with a path whose final segment [f] is
    non-empty, command "create" renders "Creating f", "str_replace"
    renders "Editing f", "insert" renders "Inserting into f", "view"
    renders "Viewing f", and any other command value renders "Editing f";
    the labels of the four named commands are pairwise distinct. *)
Theorem C1_editor_command_labels args command p f :
  get (parsed args) "command" = Normal command →
  get (parsed args) "path" = Normal (JStr p) →
  finalSegment p f → f ≠ "" →
  (command = JStr "create" →
     shownText (label "str_replace_editor" args) = Normal ("Creating " +:+ f)) ∧
  (command = JStr "str_replace" →
     shownText (label "str_replace_editor" args) = Normal ("Editing " +:+ f)) ∧
  (command = JStr "insert" →
     shownText (label "str_replace_editor" args) = Normal ("Inserting into " +:+ f)) ∧
  (command = JStr "view" →
     shownText (label "str_replace_editor" args) = Normal ("Viewing " +:+ f)) ∧
  (command ∉ [JStr "create"; JStr "str_replace"; JStr "insert"; JStr "view"] →
     shownText (label "str_replace_editor" args) = Normal ("Editing " +:+ f)) ∧
  NoDup ["Creating " +:+ f; "Editing " +:+ f; "Inserting into " +:+ f;
         "Viewing " +:+ f].
Proof.
  intros Hc Hp Hf Hne.
  pose proof (editor_text args command (JStr p) f Hc Hp Hf) as H.
  rewrite (nonEmpty_true _ Hne) in H.
  repeat split.
  - intros ->. by rewrite H.
  - intros ->. by rewrite H.
  - intros ->. by rewrite H.
  - intros ->. by rewrite H.
  - intros Hother. rewrite H.
    rewrite !isCase_false; [done|..]; intros ->; apply Hother;
      rewrite !elem_of_cons; tauto.
  - rewrite !NoDup_cons, !elem_of_cons, !elem_of_nil.
    repeat split; try apply NoDup_nil; try tauto.
    all: intros H'; decompose [or] H'; try done; discriminate.
Qed.

End EditorLabels.

Lemma C1_editor_command_labels_witness :
  finalSegment "/components/Button.jsx" "Button.jsx" ∧
  shownText (ToolActionLabel noParse "str_replace_editor" createButtonArgs)
  = Normal "Creating Button.jsx".
Proof.
  assert (finalSegment "/components/Button.jsx" "Button.jsx") as Hf.
  { split; [reflexivity|]. right. by exists "/components". }
  split; [exact Hf|].
  refine (proj1 (C1_editor_command_labels noParse createButtonArgs
                   (JStr "create")
                   "/components/Button.jsx" "Button.jsx" _ _ Hf _) eq_refl).
  - reflexivity.
  - reflexivity.
  - discriminate.
Defined.

(** ** The file name shown by str_replace_editor *)

Lemma fileNameOf_leading_slash p :
  fileNameOf (JStr (String "/" p)) = fileNameOf (JStr p).
Proof.
  destruct (finalSegment_exists p) as [f Hf].
  rewrite (fileNameOf_segment (JStr p) f Hf).
  apply fileNameOf_segment. destruct Hf as [Hno [->|[pre ->]]].
  - split; [done|]. right. by exists "".
  - split; [done|]. right. by exists (String "/" pre).
Qed.

Lemma isPathLike_segment v : isPathLike v → ∃ f, segmentOf v f.
Proof.
  destruct v; simpl; try done; eauto. intros _. apply finalSegment_exists.
Qed.

Section EditorFileName.
Variable JSON_parse : string → Completion JsValue.
Let parsed := parseArgs JSON_parse.
Let label := ToolActionLabel JSON_parse.

Lemma editor_text_verb args command v f :
  get (parsed args) "command" = Normal command →
  get (parsed args) "path" = Normal v →
  segmentOf v f →
  shownText (label "str_replace_editor" args)
  = Normal (editorVerb command +:+ (if nonEmpty f then f else "file")).
Proof.
  intros Hc Hp Hf. unfold label. rewrite (editor_text _ _ _ _ _ Hc Hp Hf).
  unfold editorVerb. by repeat case_match.
Qed.

(** C7: for every str_replace_editor command the name in the label is the
    part of args.path after its last "/" (all of it when there is none):
    that part exists and is unique, the label is the command's verb
    followed by it, or by "file" when it is empty or path is absent, and a
    leading "/" on the path changes nothing. *)
Theorem C7_editor_file_name :
  (∀ args command p,
     get (parsed args) "command" = Normal command →
     get (parsed args) "path" = Normal (JStr p) →
     ∃ f, finalSegment p f ∧ (∀ g, finalSegment p g → g = f) ∧
       shownText (label "str_replace_editor" args)
       = Normal (editorVerb command +:+ (if nonEmpty f then f else "file"))) ∧
  (∀ args command,
     get (parsed args) "command" = Normal command →
     get (parsed args) "path" = Normal JUndefined →
     shownText (label "str_replace_editor" args)
     = Normal (editorVerb command +:+ "file")) ∧
  (∀ props p,
     label "str_replace_editor" (ArgsObject (<["path" := JStr (String "/" p)]> props))
     = label "str_replace_editor" (ArgsObject (<["path" := JStr p]> props))).
Proof.
  split; [|split].
  - intros args command p Hc Hp.
    destruct (finalSegment_exists p) as [f Hf]. exists f.
    split; [done|]. split.
    + intros g Hg. by apply (finalSegment_unique p).
    + by apply (editor_text_verb args command (JStr p)).
  - intros args command Hc Hp.
    by rewrite (editor_text_verb args command JUndefined "" Hc Hp).
  - intros props p. unfold label, ToolActionLabel, getActionMessage. cbn.
    rewrite !lookup_insert_eq. cbn -[fileNameOf].
    rewrite fileNameOf_leading_slash.
    by rewrite !lookup_insert_ne by done.
Qed.

End EditorFileName.

Lemma C7_editor_file_name_witness :
  ∃ f, finalSegment "components/Button.jsx" f ∧
    shownText (ToolActionLabel noParse "str_replace_editor" createRelativeArgs)
    = Normal (editorVerb (JStr "create") +:+ (if nonEmpty f then f else "file")).
Proof.
  destruct (proj1 (C7_editor_file_name noParse) createRelativeArgs
              (JStr "create")
              "components/Button.jsx" eq_refl eq_refl) as (f & Hf & _ & Ht).
  by exists f.
Defined.

(** ** The file_manager labels *)

Section ManagerLabels.
Variable JSON_parse : string → Completion JsValue.
Let parsed := parseArgs JSON_parse.
Let label := ToolActionLabel JSON_parse.

Lemma fileNameOf_old old_path path f :
  oldSegment old_path path f → fileNameOf (or_else old_path path) = Normal f.
Proof.
  intros [_ H]. unfold or_else.
  destruct old_path as [| | | |o| |]; simpl in *; try done;
    try by apply fileNameOf_segment.
  fold (nonEmpty o). destruct (nonEmpty o); [|by apply fileNameOf_segment].
  by apply (fileNameOf_segment (JStr o)).
Qed.

(** The file_manager branch up to the switch on the command. *)
Lemma manager_message args command old_path path f :
  get (parsed args) "command" = Normal command →
  get (parsed args) "old_path" = Normal old_path →
  get (parsed args) "path" = Normal path →
  oldSegment old_path path f →
  shownText (label "file_manager" args) =
    if isCase command "delete" then Normal ("Deleting " +:+ f)
    else if isCase command "rename" then
      new_path ← get (parsed args) "new_path";
      newFileName ← fileNameOf new_path;
      Normal ("Renaming " +:+ f +:+ " to " +:+ newFileName)
    else Normal (if nonEmpty f then "Managing " +:+ f else "Managing files").
Proof.
  unfold label, parsed. intros Hc Ho Hp Hf.
  rewrite shownText_message. unfold getActionMessage.
  destruct (isPathLike_segment path (proj1 Hf)) as [f' Hf'].
  rewrite Hp, Hc, Ho. cbn. rewrite (fileNameOf_segment _ _ Hf'). cbn.
  rewrite (fileNameOf_old _ _ _ Hf). cbn.
  repeat case_match; try done.
  destruct (get _ "new_path") as [new|]; [|done]. cbn.
  by destruct (fileNameOf new).
Qed.

(** C2 (amended): for file_manager, let [f] be the final segment of
    old_path when old_path is a non-empty string and of path otherwise.
    Command "delete" renders "Deleting f"; "rename" renders
    "Renaming f to g" with [g] the final segment of new_path; any other
    command renders "Managing f" when [f] is non-empty and
    "Managing files" otherwise. *)
Theorem C2_manager_command_labels args command old_path path f :
  get (parsed args) "command" = Normal command →
  get (parsed args) "old_path" = Normal old_path →
  get (parsed args) "path" = Normal path →
  oldSegment old_path path f →
  (command = JStr "delete" →
     shownText (label "file_manager" args) = Normal ("Deleting " +:+ f)) ∧
  (command = JStr "rename" →
     ∀ new_path g,
       get (parsed args) "new_path" = Normal new_path →
       segmentOf new_path g →
       shownText (label "file_manager" args)
       = Normal ("Renaming " +:+ f +:+ " to " +:+ g)) ∧
  (command ∉ [JStr "delete"; JStr "rename"] →
     shownText (label "file_manager" args)
     = Normal (if nonEmpty f then "Managing " +:+ f else "Managing files")).
Proof.
  intros Hc Ho Hp Hf.
  pose proof (manager_message args command old_path path f Hc Ho Hp Hf) as H.
  repeat split.
  - intros ->. by rewrite H.
  - intros -> new_path g Hn Hg. rewrite H. cbn. rewrite Hn. cbn.
    by rewrite (fileNameOf_segment _ _ Hg).
  - intros Hother. rewrite H.
    rewrite !isCase_false; [done|..]; intros ->; apply Hother;
      rewrite !elem_of_cons; tauto.
Qed.

End ManagerLabels.

Lemma C2_manager_command_labels_witness :
  shownText (ToolActionLabel noParse "file_manager" renameButtonArgs)
  = Normal "Renaming Button.jsx to ActionButton.jsx".
Proof.
  refine (proj1 (proj2 (C2_manager_command_labels noParse renameButtonArgs
            (JStr "rename")
            (JStr "/components/Button.jsx") JUndefined "Button.jsx" _ _ _ _))
            eq_refl (JStr "/components/ActionButton.jsx") "ActionButton.jsx" _ _).
  - reflexivity.
  - reflexivity.
  - reflexivity.
  - split; [exact I|]. split; [reflexivity|]. right. by exists "/components".
  - reflexivity.
  - split; [reflexivity|]. right. by exists "/components".
Defined.

(** C2 as stated fails: with command "delete" the name shown is taken from
    old_path when one is given, not from path. *)
Lemma C2_delete_prefers_old_path :
  get (parseArgs noParse deleteBothPathsArgs) "command" = Normal (JStr "delete") ∧
  get (parseArgs noParse deleteBothPathsArgs) "path" = Normal (JStr "/b/y.js") ∧
  finalSegment "/b/y.js" "y.js" ∧
  shownText (ToolActionLabel noParse "file_manager" deleteBothPathsArgs)
  = Normal "Deleting x.js" ∧
  shownText (ToolActionLabel noParse "file_manager" deleteBothPathsArgs)
  ≠ Normal "Deleting y.js".
Proof.
  repeat split; try reflexivity; try discriminate.
  right. by exists "/b".
Qed.

(** ** Unusable arguments and unknown tools *)

Section Degrading.
Variable JSON_parse : string → Completion JsValue.
Let parsed := parseArgs JSON_parse.
Let label := ToolActionLabel JSON_parse.

(** A parse failure, the empty string and an absent [args] all leave the
    empty argument object. *)
Lemma parseArgs_absorbs args :
  match args with
  | ArgsAbsent => True
  | ArgsString s => s = "" ∨ ∃ e, JSON_parse s = Throw e
  | ArgsObject _ => False
  end → parsed args = JObj ∅.
Proof.
  unfold parsed. destruct args as [|s|]; simpl; [done| |done].
  intros [->|[e He]]; [done|]. rewrite He. by destruct (nonEmpty s).
Qed.

Lemma graceful_parsed args :
  graceful JSON_parse args →
  ∃ props, parsed args = JObj props ∧
    isPathLike (default JUndefined (props !! "path")) ∧
    isPathLike (default JUndefined (props !! "old_path")) ∧
    isPathLike (default JUndefined (props !! "new_path")).
Proof.
  destruct args as [|s|props]; intros H.
  - by exists ∅.
  - exists ∅. split; [by apply parseArgs_absorbs|done].
  - by exists props.
Qed.

Lemma isPathLike_or_else a b :
  isPathLike a → isPathLike b → isPathLike (or_else a b).
Proof. unfold or_else. by destruct (truthy a). Qed.

Lemma isPathLike_fileNameOf v : isPathLike v → ∃ f, fileNameOf v = Normal f.
Proof.
  intros [f Hf]%isPathLike_segment. exists f. by apply fileNameOf_segment.
Qed.

(** On the empty argument object the message is the generic one. *)
Lemma empty_message toolName :
  text <$> getActionMessage toolName (JObj ∅) = Normal (genericText toolName).
Proof.
  unfold getActionMessage, genericText. cbn.
  by repeat destruct (decide _).
Qed.

(** On graceful arguments the message is built without a throw. *)
Lemma graceful_message toolName args :
  graceful JSON_parse args →
  ∃ m, getActionMessage toolName (parsed args) = Normal m ∧
    (toolName ≠ "" → text m ≠ "") ∧
    (parsed args = JObj ∅ → text m = genericText toolName).
Proof.
  intros (props & Hobj & Hp & Ho & Hn)%graceful_parsed.
  assert (∃ m, getActionMessage toolName (JObj props) = Normal m ∧
               (toolName ≠ "" → text m ≠ "")) as (m & Hm & Hne).
  { unfold getActionMessage. cbn.
    destruct (isPathLike_fileNameOf _ Hp) as [f ->]. cbn.
    destruct (isPathLike_fileNameOf _ (isPathLike_or_else _ _ Ho Hp))
      as [g Hg].
    destruct (isPathLike_fileNameOf _ Hn) as [h ->].
    destruct (decide (toolName = "str_replace_editor")) as [->|].
    { repeat case_match; eexists; (split; [done|]); intros _; cbn;
        discriminate. }
    destruct (decide (toolName = "file_manager")) as [->|]; [|by eexists].
    rewrite Hg. cbn.
    repeat case_match; eexists; (split; [done|]); intros _; cbn;
      discriminate. }
  exists m. rewrite Hobj. split; [done|]. split; [done|].
  intros [= ->]. pose proof (empty_message toolName) as He.
  rewrite Hm in He. by injection He.
Qed.

(** C3 (amended): for every toolName and every args that is absent, the
    empty string, a string JSON.parse rejects, or an object whose path,
    old_path and new_path are each a string or nothing, the component does
    not throw; a parse failure leaves the empty argument object; the
    element holds one icon and a text that is non-empty whenever toolName
    is; and on the empty argument object the text is "Editing file",
    "Managing files" or the toolName itself. *)
Theorem C3_graceful_rendering toolName args :
  graceful JSON_parse args →
  (∀ s e, args = ArgsString s → JSON_parse s = Throw e →
     parsed args = JObj ∅) ∧
  ∃ el glyph cls,
    label toolName args = Normal el ∧
    icons el = [(glyph, cls)] ∧
    (toolName ≠ "" → textContent el ≠ "") ∧
    (parsed args = JObj ∅ → textContent el = genericText toolName).
Proof.
  intros Hg. split.
  - intros s e -> He. apply parseArgs_absorbs. right. by exists e.
  - destruct (graceful_message toolName args Hg) as (m & Hm & Hne & Hgen).
    destruct (message_icon _ _ _ Hm) as (glyph & cls & Hi).
    unfold label, parsed, ToolActionLabel in *. rewrite Hm.
    unfold mbind, completion_bind. rewrite Hi.
    eexists _, glyph, cls. split; [done|]. split; [done|].
    by rewrite textContent_label.
Qed.

End Degrading.

Lemma C3_graceful_rendering_witness :
  ∃ el glyph cls,
    ToolActionLabel noParse "str_replace_editor" (ArgsString "invalid json{")
    = Normal el ∧
    icons el = [(glyph, cls)] ∧ textContent el = "Editing file".
Proof.
  destruct (C3_graceful_rendering noParse "str_replace_editor"
              (ArgsString "invalid json{")) as [Habs (el & g & c & H1 & H2 & _ & H4)].
  - right. by exists SyntaxError.
  - exists el, g, c. split; [done|]. split; [done|].
    apply H4. by apply (Habs "invalid json{" SyntaxError).
Defined.

(** C3 as stated fails twice over: an unknown tool with an empty name gets
    an empty text, and an object whose path is a number makes the
    component throw. *)
Lemma C3_blank_text_and_throw :
  shownText (ToolActionLabel noParse "" ArgsAbsent) = Normal "" ∧
  ToolActionLabel noParse "str_replace_editor"
    (ArgsObject (obj [("command", JStr "create"); ("path", num42)]))
  = Throw TypeError.
Proof. split; reflexivity. Qed.

(** C6 fails on the code: the file name is computed before the tool name
    is looked at, so an unknown tool whose args carry a non-string path
    throws instead of rendering its name. *)
Theorem C6_unknown_tool_throws :
  ToolActionLabel noParse "unknown_tool"
    (ArgsObject (obj [("command", JStr "test"); ("path", num42)]))
  = Throw TypeError.
Proof. reflexivity. Qed.

(** The same happens for args that is the JSON text of null. *)
Lemma unknown_tool_null_args JSON_parse toolName s :
  s ≠ "" → JSON_parse s = Normal JNull →
  ToolActionLabel JSON_parse toolName (ArgsString s) = Throw TypeError.
Proof.
  intros Hs Hp. unfold ToolActionLabel, parseArgs.
  by rewrite (nonEmpty_true _ Hs), Hp.
Qed.

(** Where the path is a string or missing, an unknown tool does render its
    own name. *)
Lemma unknown_tool_text JSON_parse toolName args v :
  toolName ≠ "str_replace_editor" → toolName ≠ "file_manager" →
  get (parseArgs JSON_parse args) "path" = Normal v → isPathLike v →
  shownText (ToolActionLabel JSON_parse toolName args) = Normal toolName.
Proof.
  intros H1 H2 Hp [f Hf]%isPathLike_fileNameOf.
  rewrite shownText_message. unfold getActionMessage. rewrite Hp. cbn.
  rewrite Hf. cbn.
  destruct (get _ "command") eqn:Hc.
  - cbn. by rewrite !decide_False by done.
  - destruct (parseArgs JSON_parse args); simplify_eq/=.
Qed.

(** ** Strings as joined pieces *)

Section Pieces.
Variable sep : ascii.

Lemma join_cons piece rest :
  rest ≠ [] → join sep (piece :: rest) = piece +:+ String sep (join sep rest).
Proof. by destruct rest. Qed.

Lemma join_split s : join sep (split sep s) = s.
Proof.
  induction s as [|c s IH]; [done|]. simpl.
  destruct (Ascii.eqb_spec c sep) as [->|Hc].
  - rewrite join_cons by apply split_nonempty. by rewrite IH.
  - destruct (split sep s) as [|piece rest] eqn:E;
      [by apply split_nonempty in E|].
    rewrite <- IH. by destruct rest.
Qed.

Lemma split_sep_free s : Forall (λ piece, occurs sep piece = false) (split sep s).
Proof.
  induction s as [|c s IH]; simpl; [by repeat constructor|].
  destruct (Ascii.eqb c sep) eqn:Hc; [by constructor|].
  destruct (split sep s) as [|piece rest]; [by repeat constructor; simpl; rewrite Hc|].
  inversion_clear IH. constructor; [|done]. simpl. by rewrite Hc.
Qed.

Lemma split_join pieces :
  pieces ≠ [] → Forall (λ piece, occurs sep piece = false) pieces →
  split sep (join sep pieces) = pieces.
Proof.
  induction pieces as [|piece rest IH]; [done|]. intros _ Hfree.
  inversion_clear Hfree as [|?? Hp Hrest].
  destruct rest as [|piece' rest'].
  - by apply split_no_sep.
  - rewrite join_cons by done. rewrite split_app, (split_no_sep _ _ Hp).
    by rewrite IH.
Qed.

End Pieces.

(** ** The normalizer on joined pieces *)

Lemma append_assoc a b c : (a +:+ b) +:+ c = a +:+ (b +:+ c).
Proof.
  induction a as [|x a IH]; [done|].
  change (String x ((a +:+ b) +:+ c) = String x (a +:+ (b +:+ c))).
  by rewrite IH.
Qed.

Lemma append_cons x a b : String x a +:+ b = String x (a +:+ b).
Proof. done. Qed.

Lemma collapse_nonsep a rest :
  Ascii.eqb a "/" = false →
  collapseSeps (String a rest) = String a (collapseSeps rest).
Proof. intros Ha. destruct rest; simpl; [done|]. by rewrite Ha. Qed.

Lemma collapse_sep_sep rest :
  collapseSeps (String "/" (String "/" rest)) = collapseSeps (String "/" rest).
Proof. done. Qed.

Lemma collapse_sep_nonsep b rest :
  Ascii.eqb b "/" = false →
  collapseSeps (String "/" (String b rest))
  = String "/" (collapseSeps (String b rest)).
Proof.
  intros Hb. change (collapseSeps (String "/" (String b rest))) with
    (if Ascii.eqb "/" "/" && Ascii.eqb b "/"
     then collapseSeps (String b rest)
     else String "/" (collapseSeps (String b rest))).
  by rewrite Hb.
Qed.

Lemma collapse_piece piece t :
  occurs "/" piece = false →
  collapseSeps (piece +:+ t) = piece +:+ collapseSeps t.
Proof.
  induction piece as [|c piece IH]; [done|].
  intros [Hc Hp]%orb_false_iff. rewrite !append_cons.
  rewrite collapse_nonsep by done. by rewrite IH.
Qed.

Lemma collapse_join pieces :
  pieces ≠ [] → Forall (λ piece, occurs "/" piece = false) pieces →
  collapseSeps (String "/" (join "/" pieces))
  = cat (filter (λ piece, piece ≠ "") pieces) +:+ trailing pieces.
Proof.
  induction pieces as [|piece rest IH]; [done|]. intros _ Hfree.
  inversion_clear Hfree as [|?? Hp Hrest].
  destruct rest as [|piece' rest'].
  - destruct piece as [|c piece]; [done|].
    change (join "/" [String c piece]) with (String c piece).
    pose proof Hp as [Hc _]%orb_false_iff.
    rewrite collapse_sep_nonsep by done.
    pose proof (collapse_piece (String c piece) "" Hp) as Hcp.
    change (collapseSeps "") with "" in Hcp.
    rewrite append_empty_r in Hcp. rewrite Hcp.
    rewrite filter_cons_True by done. unfold trailing.
    rewrite decide_False by (intros [=]).
    change (String "/" (String c piece)
            = String "/" ((String c piece +:+ "") +:+ "")).
    by rewrite !append_empty_r.
  - rewrite join_cons by done. specialize (IH ltac:(done) Hrest).
    assert (trailing (piece :: piece' :: rest') = trailing (piece' :: rest'))
      as -> by done.
    destruct piece as [|c piece].
    + rewrite filter_cons_False by (intros H; by apply H).
      change ("" +:+ String "/" (join "/" (piece' :: rest')))
        with (String "/" (join "/" (piece' :: rest'))).
      by rewrite collapse_sep_sep.
    + pose proof Hp as [Hc _]%orb_false_iff.
      rewrite (append_cons c piece).
      rewrite (collapse_sep_nonsep c _ Hc).
      rewrite <- (append_cons c piece), (collapse_piece _ _ Hp), IH.
      rewrite (filter_cons_True _ (String c piece)) by (intros [=]).
      change (cat (String c piece :: ?l)) with
        (String "/" (String c piece +:+ cat l)).
      by rewrite (append_cons "/"), append_assoc.
Qed.

Lemma dropLast_snoc s : dropLastSep (s +:+ "/") = s.
Proof.
  induction s as [|c s IH]; [done|]. rewrite append_cons.
  destruct s as [|d s]; [done|].
  change (String c (dropLastSep (String d s +:+ "/")) = String c (String d s)).
  by rewrite IH.
Qed.

Lemma dropLast_app x t : t ≠ "" → dropLastSep (x +:+ t) = x +:+ dropLastSep t.
Proof.
  intros Ht. induction x as [|c x IH]; [done|]. rewrite !append_cons.
  destruct (x +:+ t) as [|d r] eqn:E.
  - destruct x; [by destruct t|done].
  - change (String c (dropLastSep (String d r)) = String c (x +:+ dropLastSep t)).
    by rewrite IH.
Qed.

Lemma dropLast_sep_free x : occurs "/" x = false → dropLastSep x = x.
Proof.
  induction x as [|c x IH]; [done|]. intros [Hc Hx]%orb_false_iff.
  destruct x as [|d x]; [simpl; by rewrite Hc|].
  change (String c (dropLastSep (String d x)) = String c (String d x)).
  by rewrite IH.
Qed.

Lemma cat_cons seg segs : cat (seg :: segs) = String "/" (seg +:+ cat segs).
Proof. done. Qed.

Lemma cat_empty segs : cat segs = "" → segs = [].
Proof. by destruct segs. Qed.

Lemma dropLast_cat segs :
  Forall validSegment segs → dropLastSep (cat segs) = cat segs.
Proof.
  induction 1 as [|seg segs [Hne Hfree] _ IH]; [done|].
  rewrite cat_cons. change (String "/" ?t) with ("/" +:+ t).
  assert (seg +:+ cat segs ≠ "") by (by destruct seg).
  rewrite dropLast_app by done. f_equal.
  destruct (cat segs) eqn:E.
  - rewrite append_empty_r. by apply dropLast_sep_free.
  - rewrite dropLast_app by done. by rewrite IH.
Qed.

Lemma cat_join segs : segs ≠ [] → cat segs = String "/" (join "/" segs).
Proof.
  induction segs as [|seg segs IH]; [done|]. intros _. rewrite cat_cons.
  destruct segs as [|seg' segs']; [by rewrite append_empty_r|].
  by rewrite IH.
Qed.

Lemma render_join segs : render segs = String "/" (join "/" segs).
Proof. destruct segs; [done|]. by apply cat_join. Qed.

(** Rule 4 on a collapsed path. *)
Lemma strip_cat segs pieces :
  Forall validSegment segs → (segs = [] → trailing pieces = "/") →
  stripTrailingSep (cat segs +:+ trailing pieces) = render segs.
Proof.
  intros Hv Hroot. destruct segs as [|seg segs].
  - by rewrite Hroot.
  - unfold stripTrailingSep, render.
    pose proof Hv as [[Hne _] _]%Forall_cons.
    assert (String.eqb (cat (seg :: segs) +:+ trailing pieces) "/" = false)
      as ->.
    { apply String.eqb_neq. rewrite cat_cons. destruct seg; [done|].
      by intros [=]. }
    unfold trailing. case_decide.
    + apply dropLast_snoc.
    + rewrite append_empty_r. by apply dropLast_cat.
Qed.

Lemma filter_pieces_valid pieces :
  Forall (λ piece, occurs "/" piece = false) pieces →
  Forall validSegment (filter (λ piece, piece ≠ "") pieces).
Proof.
  intros H. apply Forall_forall. intros seg [Hne Hin]%list_elem_of_filter.
  split; [done|]. by apply (proj1 (Forall_forall _ _) H).
Qed.

Lemma segments_valid p : Forall validSegment (segments p).
Proof. apply filter_pieces_valid, split_sep_free. Qed.

Lemma filter_empty_trailing pieces :
  pieces ≠ [] → filter (λ piece, piece ≠ "") pieces = [] →
  trailing pieces = "/".
Proof.
  intros Hne Hf. unfold trailing. rewrite decide_True; [done|].
  destruct (last pieces) as [x|] eqn:E; [|by apply last_None in E].
  f_equal. destruct (decide (x = "")) as [|Hx]; [done|].
  apply last_Some_elem_of in E.
  assert (x ∈ filter (λ piece, piece ≠ "") pieces)
    by (by apply list_elem_of_filter).
  rewrite Hf in *. by apply elem_of_nil in H.
Qed.

(** Rules 2 to 4 leave the path made of the non-empty pieces. *)
Lemma normal_form raw :
  raw ≠ "" →
  stripTrailingSep (collapseSeps (prependSep raw)) = render (segments raw).
Proof.
  intros Hne. unfold prependSep, segments.
  assert (∀ s, stripTrailingSep (collapseSeps (String "/" s))
               = render (filter (λ piece, piece ≠ "") (split "/" s))) as Hs.
  { intros s. rewrite <- (join_split "/" s) at 1.
    rewrite collapse_join by (apply split_nonempty || apply split_sep_free).
    apply strip_cat.
    - apply filter_pieces_valid, split_sep_free.
    - apply filter_empty_trailing, split_nonempty. }
  destruct raw as [|c raw]; [done|]. simpl.
  destruct (Ascii.eqb_spec c "/") as [->|Hc].
  - rewrite Hs. by rewrite filter_cons_False by (intros H; by apply H).
  - rewrite Hs. simpl. by rewrite (proj2 (Ascii.eqb_neq _ _) Hc).
Qed.

Lemma filter_nonempty_valid segs :
  Forall validSegment segs → filter (λ piece, piece ≠ "") segs = segs.
Proof.
  induction 1 as [|seg segs [Hne _] _ IH]; [done|].
  by rewrite filter_cons_True, IH.
Qed.

Lemma segments_render segs :
  Forall validSegment segs → segments (render segs) = segs.
Proof.
  intros Hv. rewrite render_join. unfold segments. simpl.
  rewrite filter_cons_False by (intros H; by apply H).
  destruct segs as [|seg segs]; [done|].
  rewrite split_join; [by apply filter_nonempty_valid|done|].
  eapply Forall_impl; [done|]. by intros ? [].
Qed.

(** ** The normalizer is idempotent *)

Lemma hasParentSegment_false raw :
  hasParentSegment raw = false ↔ ".." ∉ segments raw.
Proof.
  unfold hasParentSegment, segments. rewrite list_elem_of_filter.
  rewrite <- not_true_iff_false, existsb_exists. split.
  - intros H [_ Hin]. apply H. exists "..".
    split; [by apply list_elem_of_In|done].
  - intros H (x & Hin & <-%String.eqb_eq). apply H.
    split; [done|by apply list_elem_of_In].
Qed.

(** What the normalizer returns, in terms of segments. *)
Lemma normalize_Ok raw p :
  normalize raw = Ok p ↔
  raw ≠ "" ∧ (".." ∉ segments raw) ∧ p = render (segments raw).
Proof.
  unfold normalize. destruct (String.eqb_spec raw "") as [->|Hne].
  { split; [done|]. by intros [? _]. }
  rewrite (normal_form _ Hne), <- hasParentSegment_false.
  destruct (hasParentSegment raw); split; try done.
  - by intros (_ & ? & _).
  - by intros [= <-].
  - by intros (_ & _ & ->).
Qed.

Lemma render_nonempty segs : render segs ≠ "".
Proof. by rewrite render_join. Qed.

(** A rendered list of valid segments without ".." is its own normal
    form. *)
Lemma normalize_render segs :
  Forall validSegment segs → ".." ∉ segs →
  normalize (render segs) = Ok (render segs).
Proof.
  intros Hv Hdots. apply normalize_Ok.
  rewrite (segments_render _ Hv). by split; [apply render_nonempty|].
Qed.

Lemma normalize_fixed raw p : normalize raw = Ok p → normalize p = Ok p.
Proof.
  intros (_ & Hdots & ->)%normalize_Ok.
  apply normalize_render; [apply segments_valid|done].
Qed.

Lemma split_render segs :
  Forall validSegment segs →
  split "/" (render segs) = "" :: (if decide (segs = []) then [""] else segs).
Proof.
  intros Hv. rewrite render_join. simpl. f_equal.
  destruct segs as [|seg segs]; [done|].
  rewrite decide_False by done. apply split_join; [done|].
  eapply Forall_impl; [done|]. by intros ? [].
Qed.

(** The normalizer's results satisfy the invariant of a Path: a leading
    separator, no two separators in a row, and no trailing separator
    except on the root. *)
Lemma normalize_path raw p :
  normalize raw = Ok p →
  startsWithSep p = true ∧
  (∀ a b, p ≠ a +:+ String "/" (String "/" b)) ∧
  (p = "/" ∨ ∀ a, p ≠ a +:+ "/").
Proof.
  intros (_ & _ & ->)%normalize_Ok.
  pose proof (segments_valid raw) as Hv.
  pose proof (split_render _ Hv) as Hs.
  split; [by rewrite render_join|]. split.
  - intros a b Hab. rewrite Hab, split_app in Hs. simpl in Hs.
    destruct (split "/" a) as [|x xs] eqn:Ea; [by apply split_nonempty in Ea|].
    injection Hs as _ Hs.
    assert ("" ∈ xs ++ "" :: split "/" b) as Hin by set_solver.
    rewrite Hs in Hin. case_decide as Hnil.
    + apply (f_equal length) in Hs. rewrite length_app in Hs. simpl in Hs.
      destruct (split "/" b) eqn:Eb; [by apply split_nonempty in Eb|].
      simpl in Hs. lia.
    + by destruct (proj1 (Forall_forall _ _) Hv "" Hin).
  - destruct (segments raw) as [|seg segs] eqn:E; [by left|]. right.
    intros a Ha. rewrite Ha in Hs.
    change (a +:+ "/") with (a +:+ String "/" "") in Hs.
    rewrite split_app in Hs. simpl in Hs.
    apply (f_equal last) in Hs. rewrite last_snoc, last_cons in Hs.
    destruct (last (seg :: segs)) as [x|] eqn:El; [|by apply last_None in El].
    injection Hs as <-. apply last_Some_elem_of in El.
    by destruct (proj1 (Forall_forall _ _) Hv "" El).
Qed.

(** C8: normalizing a normalized path changes nothing: whenever
    [normalize p] yields [q], [normalize q] yields [q] again, and
    normalizing twice is the same computation as normalizing once,
    rejections included. *)
Theorem C8_normalize_idempotent :
  (∀ p q, normalize p = Ok q → normalize q = Ok q) ∧
  (∀ raw, (p ← normalize raw; normalize p) = normalize raw).
Proof.
  split; [apply normalize_fixed|].
  intros raw. destruct (normalize raw) as [p|e] eqn:E; [|done].
  apply (normalize_fixed _ _ E).
Qed.

Lemma C8_normalize_idempotent_witness :
  normalize "a//b/" = Ok "/a/b" ∧ normalize "/a/b" = Ok "/a/b".
Proof.
  split; [reflexivity|].
  exact (proj1 C8_normalize_idempotent "a//b/" "/a/b" eq_refl).
Defined.

(** ** Ancestors *)

Lemma elem_of_ancestors a p :
  a ∈ ancestors p ↔
  ∃ i, i < length (segments p) ∧ a = render (take i (segments p)).
Proof.
  unfold ancestors. rewrite list_elem_of_fmap. split.
  - intros (i & -> & Hi%elem_of_seq). exists i. split; [lia|done].
  - intros (i & Hi & ->). exists i. split; [done|]. apply elem_of_seq. lia.
Qed.

Lemma take_valid i segs : Forall validSegment segs → Forall validSegment (take i segs).
Proof. apply Forall_take. Qed.

Lemma segments_ancestor a p :
  a ∈ ancestors p →
  ∃ i, i < length (segments p) ∧ segments a = take i (segments p).
Proof.
  intros (i & Hi & ->)%elem_of_ancestors. exists i. split; [done|].
  apply segments_render, take_valid, segments_valid.
Qed.

Lemma ancestor_ne a p : a ∈ ancestors p → a ≠ p.
Proof.
  intros (i & Hi & Ha)%segments_ancestor ->.
  apply (f_equal length) in Ha. rewrite length_take in Ha. lia.
Qed.

Lemma ancestor_trans a b p :
  a ∈ ancestors b → b ∈ ancestors p → a ∈ ancestors p.
Proof.
  intros (j & Hj & ->)%elem_of_ancestors (i & Hi & Hb)%segments_ancestor.
  rewrite Hb in *. rewrite length_take in Hj.
  apply elem_of_ancestors. exists j. split; [lia|].
  by rewrite take_take, Nat.min_l by lia.
Qed.

Lemma ancestor_normalized a p :
  ".." ∉ segments p → a ∈ ancestors p → normalize a = Ok a.
Proof.
  intros Hdots (i & _ & ->)%elem_of_ancestors.
  apply normalize_render; [apply take_valid, segments_valid|].
  intros (j & Hin & _)%elem_of_take. apply Hdots.
  by eapply list_elem_of_lookup_2.
Qed.

Lemma root_ancestor p : p ≠ "/" → normalize p = Ok p → "/" ∈ ancestors p.
Proof.
  intros Hne (_ & _ & Hp)%normalize_Ok. apply elem_of_ancestors.
  exists 0. split; [|done].
  destruct (segments p); [by rewrite Hp in Hne|simpl; lia].
Qed.

(** ** Creating the directories of a path *)

(** ** Creating the directories of a path *)

Lemma link_lookup_ne dir name m k : k ≠ dir → link dir name m !! k = m !! k.
Proof.
  intros Hk. unfold link. by repeat case_match; rewrite lookup_insert_ne.
Qed.

Lemma link_lists dir name m : listsChild (link dir name m) dir name.
Proof.
  unfold link, listsChild.
  repeat case_match; rewrite lookup_insert_eq; eexists; split; try done;
    set_solver.
Qed.

Lemma link_preserves dir name m k x :
  listsChild m k x → listsChild (link dir name m) k x.
Proof.
  intros (children & Hk & Hx). destruct (decide (k = dir)) as [->|Hne].
  - unfold link. rewrite Hk. exists (children ∪ {[name]}).
    rewrite lookup_insert_eq. split; [done|set_solver].
  - exists children. by rewrite link_lookup_ne.
Qed.

Lemma ensureDirs_lookup_ne prefix rest m k :
  (∀ i, i < length rest → k ≠ render (prefix ++ take i rest)) →
  ensureDirs prefix rest m !! k = m !! k.
Proof.
  revert prefix m. induction rest as [|name rest IH]; intros prefix m Hk;
    [done|]. simpl. rewrite IH.
  - apply link_lookup_ne. specialize (Hk 0 ltac:(simpl; lia)).
    by rewrite take_0, app_nil_r in Hk.
  - intros i Hi. specialize (Hk (S i) ltac:(simpl; lia)).
    by rewrite <- app_assoc.
Qed.

Lemma ensureDirs_preserves prefix rest m k x :
  listsChild m k x → listsChild (ensureDirs prefix rest m) k x.
Proof.
  revert prefix m. induction rest as [|name rest IH]; intros prefix m Hk;
    [done|]. simpl. by apply IH, link_preserves.
Qed.

Lemma ensureDirs_lists prefix rest m i name :
  rest !! i = Some name →
  listsChild (ensureDirs prefix rest m) (render (prefix ++ take i rest)) name.
Proof.
  revert prefix m i. induction rest as [|x rest IH]; intros prefix m i Hi;
    [done|]. destruct i as [|i]; simpl in *.
  - injection Hi as ->. rewrite app_nil_r.
    apply ensureDirs_preserves, link_lists.
  - replace (prefix ++ x :: take i rest) with ((prefix ++ [x]) ++ take i rest)
      by (by rewrite <- app_assoc).
    by apply IH.
Qed.

(** ** Writing a file *)

Lemma kindOf_file s p : kindOf s p = Some KFile ↔ isFile s p = true.
Proof. unfold kindOf, isFile. by repeat case_match. Qed.

Lemma kindOf_directory s p :
  kindOf s p = Some KDirectory ↔ isDirectory s p = true.
Proof. unfold kindOf, isDirectory. by repeat case_match. Qed.

Lemma kindOf_listsChild s k name :
  listsChild (nodes s) k name → kindOf s k = Some KDirectory.
Proof. intros (children & Hk & _). unfold kindOf. by rewrite Hk. Qed.

Lemma conflicting_false s p :
  conflicting s p = false ↔
  (∀ a, a ∈ ancestors p → kindOf s a ≠ Some KFile) ∧
  kindOf s p ≠ Some KDirectory.
Proof.
  unfold conflicting. rewrite orb_false_iff, kindOf_directory.
  rewrite not_true_iff_false. apply and_iff_compat_r.
  rewrite <- not_true_iff_false, existsb_exists. split.
  - intros H a Ha Hk. apply H. exists a.
    by rewrite <- list_elem_of_In, <- kindOf_file.
  - intros H (a & Ha%list_elem_of_In & Hk%kindOf_file). by apply (H a).
Qed.

(** The store a successful write leaves. *)
Lemma write_Ok s raw c p :
  normalize raw = Ok p → conflicting s p = false →
  write s raw c =
    Ok {| nodes := <[p := File c (clock s)]>
                     (ensureDirs [] (segments p) (nodes s));
          clock := S (clock s) |}.
Proof. intros Hp Hc. unfold write. rewrite Hp. cbn. by rewrite Hc. Qed.

(** When a write succeeds. *)
Lemma write_Ok_inv s raw c s' :
  write s raw c = Ok s' →
  ∃ p, normalize raw = Ok p ∧ conflicting s p = false.
Proof.
  unfold write. destruct (normalize raw) as [p|]; [|done]. cbn.
  destruct (conflicting s p) eqn:E; [done|]. by exists p.
Qed.

Section WriteEffect.
Variables (s : Store) (p c : string).
Hypothesis Hfree : conflicting s p = false.
Let s' : Store :=
  {| nodes := <[p := File c (clock s)]> (ensureDirs [] (segments p) (nodes s));
     clock := S (clock s) |}.

Lemma written_ancestor_lists i name :
  segments p !! i = Some name →
  listsChild (nodes s') (render (take i (segments p))) name.
Proof.
  intros Hi. destruct (ensureDirs_lists [] _ (nodes s) _ _ Hi)
    as (children & Hk & Hn).
  exists children. split; [|done]. unfold s'. simpl. rewrite lookup_insert_ne; [done|].
  apply not_eq_sym, ancestor_ne, elem_of_ancestors. exists i.
  split; [by eapply lookup_lt_Some|done].
Qed.

Lemma written_ancestor a : a ∈ ancestors p → kindOf s' a = Some KDirectory.
Proof.
  intros (i & Hi & ->)%elem_of_ancestors.
  destruct (lookup_lt_is_Some_2 _ _ Hi) as [name Hn].
  by eapply kindOf_listsChild, written_ancestor_lists.
Qed.

Lemma written_elsewhere k :
  k ≠ p → k ∉ ancestors p → nodes s' !! k = nodes s !! k.
Proof.
  intros Hk Ha. unfold s'. simpl. rewrite lookup_insert_ne by done.
  apply ensureDirs_lookup_ne. intros i Hi ->. apply Ha, elem_of_ancestors.
  by exists i.
Qed.

Lemma written_kind k :
  kindOf s' k =
    if decide (k = p) then Some KFile
    else if decide (k ∈ ancestors p) then Some KDirectory
    else kindOf s k.
Proof.
  repeat case_decide.
  - subst k. unfold kindOf, s'. simpl. by rewrite lookup_insert_eq.
  - by apply written_ancestor.
  - unfold kindOf. by rewrite written_elsewhere.
Qed.

Lemma written_content k :
  contentOf s' k = if decide (k = p) then Some c else contentOf s k.
Proof.
  case_decide as Hk.
  - subst k. unfold contentOf, s'. simpl. by rewrite lookup_insert_eq.
  - destruct (decide (k ∈ ancestors p)) as [Ha|Ha].
    + pose proof (written_ancestor k Ha) as Hd.
      apply conflicting_false in Hfree as [Hanc _]. specialize (Hanc k Ha).
      unfold kindOf, contentOf in *. by repeat case_match.
    + unfold contentOf. by rewrite written_elsewhere.
Qed.

End WriteEffect.

Lemma read_file s raw p c t :
  normalize raw = Ok p → nodes s !! p = Some (File c t) → read s raw = Ok c.
Proof. intros Hp Hn. unfold read. rewrite Hp. cbn. by rewrite Hn. Qed.

(** C10: a write that does not conflict succeeds; reading the same path
    afterwards, as given or normalized, returns the content written;
    every ancestor of the path is then a directory that lists the next
    segment of the path; and no other node of the store is touched. *)
Theorem C10_write_then_read s raw c p :
  normalize raw = Ok p → conflicting s p = false →
  ∃ s', write s raw c = Ok s' ∧
    read s' raw = Ok c ∧ read s' p = Ok c ∧
    (∀ a, a ∈ ancestors p → kindOf s' a = Some KDirectory) ∧
    (∀ i name, segments p !! i = Some name →
       listsChild (nodes s') (render (take i (segments p))) name) ∧
    (∀ k, k ≠ p → k ∉ ancestors p → nodes s' !! k = nodes s !! k).
Proof.
  intros Hp Hfree. eexists. split; [by apply write_Ok|].
  split; [|split; [|split; [|split]]].
  - eapply read_file; [done|]. simpl. apply lookup_insert_eq.
  - eapply read_file; [by eapply normalize_fixed|]. simpl.
    apply lookup_insert_eq.
  - apply written_ancestor.
  - apply written_ancestor_lists.
  - apply written_elsewhere.
Qed.

Lemma C10_write_then_read_witness :
  ∃ s', write emptyStore "a//b/c.txt" "x" = Ok s' ∧
    read s' "a//b/c.txt" = Ok "x" ∧
    kindOf s' "/a/b" = Some KDirectory ∧
    listsChild (nodes s') "/a" "b".
Proof.
  destruct (C10_write_then_read emptyStore "a//b/c.txt" "x" "/a/b/c.txt")
    as (s' & Hw & Hr & _ & Hanc & Hlist & _).
  - reflexivity.
  - reflexivity.
  - exists s'. split; [done|]. split; [done|]. split.
    + apply Hanc. apply elem_of_ancestors. exists 2. split; [|done].
      vm_compute. lia.
    + by apply (Hlist 1 "b").
Defined.

(** A conflicting write is refused and a malformed path is rejected. *)
Lemma write_refused s raw c p :
  normalize raw = Ok p → conflicting s p = true →
  write s raw c = Failed ConflictError.
Proof. intros Hp Hc. unfold write. rewrite Hp. cbn. by rewrite Hc. Qed.

Lemma write_rejected s raw c e :
  normalize raw = Failed e → write s raw c = Failed e.
Proof. intros Hp. unfold write. by rewrite Hp. Qed.

(** ** The invariant of the store *)

Lemma kindOf_is_Some s k : is_Some (kindOf s k) ↔ is_Some (nodes s !! k).
Proof.
  unfold kindOf. destruct (nodes s !! k) as [[]|]; split; eauto;
    by intros [].
Qed.

Lemma wellFormed_empty : wellFormed emptyStore.
Proof.
  split; [done|]. intros k [n Hk]. unfold emptyStore in Hk. simpl in Hk.
  apply lookup_singleton_Some in Hk as [<- _]. split; [done|].
  by intros a Ha%elem_of_nil.
Qed.

Lemma wellFormed_write s raw c s' :
  wellFormed s → write s raw c = Ok s' → wellFormed s'.
Proof.
  intros [Hroot Hkeys] Hw.
  destruct (write_Ok_inv _ _ _ _ Hw) as (p & Hp & Hfree).
  rewrite (write_Ok _ _ c _ Hp Hfree) in Hw. injection Hw as <-.
  pose proof (written_kind s p c) as Hkind.
  pose proof (proj1 (conflicting_false s p) Hfree) as [Hanc Hdir].
  pose proof (normalize_fixed _ _ Hp) as Hpp.
  assert (∀ a, kindOf s a = Some KDirectory →
     kindOf {| nodes := <[p:=File c (clock s)]>
                          (ensureDirs [] (segments p) (nodes s));
               clock := S (clock s) |} a = Some KDirectory) as Hkeep.
  { intros a Ha. rewrite Hkind. repeat case_decide; congruence. }
  split; [by apply Hkeep|].
  intros k Hk%kindOf_is_Some. rewrite Hkind in Hk.
  destruct (decide (k = p)) as [->|Hne].
  { split; [done|]. apply written_ancestor. }
  destruct (decide (k ∈ ancestors p)) as [Ha|Ha].
  - split.
    + eapply ancestor_normalized; [|done].
      by apply normalize_Ok in Hpp as (_ & ? & _).
    + intros a Hak. apply written_ancestor. by eapply ancestor_trans.
  - apply kindOf_is_Some in Hk. destruct (Hkeys k Hk) as [Hn Hka].
    split; [done|]. intros a Hak. by apply Hkeep, Hka.
Qed.

(** ** Writing a list of files *)

Lemma writeAll_Ok l :
  ∀ s,
  NoDup l.*1 →
  (∀ p, p ∈ l.*1 →
     normalize p = Ok p ∧ kindOf s p ≠ Some KDirectory ∧
     ∀ a, a ∈ ancestors p → kindOf s a ≠ Some KFile ∧ a ∉ l.*1) →
  ∃ s', writeAll l s = Ok s' ∧
    (∀ k, contentOf s' k =
       match (list_to_map l : gmap string string) !! k with
       | Some c => Some c
       | None => contentOf s k
       end) ∧
    (∀ k, kindOf s' k =
       if decide (k ∈ l.*1) then Some KFile
       else if decide (Exists (λ p, k ∈ ancestors p) l.*1) then Some KDirectory
       else kindOf s k).
Proof.
  induction l as [|[p c] l IH]; intros s Hnodup Hl.
  { exists s. split; [done|]. split; intros k.
    - simpl. by rewrite lookup_empty.
    - rewrite fmap_nil. rewrite decide_False by apply not_elem_of_nil.
      by rewrite decide_False by (by intros ?%Exists_nil). }
  rewrite fmap_cons in Hnodup, Hl. cbn [fst] in Hnodup, Hl.
  apply NoDup_cons in Hnodup as [Hp Hnodup].
  destruct (Hl p ltac:(left)) as (Hnorm & Hdir & Hanc).
  assert (conflicting s p = false) as Hfree.
  { apply conflicting_false. split; [|done]. intros a Ha. by apply Hanc. }
  cbn [writeAll]. rewrite (write_Ok _ _ c _ Hnorm Hfree).
  unfold mbind at 1, result_bind at 1.
  set (s1 := {| nodes := _; clock := _ |}).
  pose proof (written_kind s p c) as Hkind. fold s1 in Hkind.
  pose proof (written_content s p c Hfree) as Hcontent. fold s1 in Hcontent.
  destruct (IH s1 Hnodup) as (s' & Hs' & Hc' & Hk').
  { intros q Hq. destruct (Hl q ltac:(by right)) as (Hqn & Hqd & Hqa).
    split; [done|]. split.
    - rewrite Hkind. rewrite decide_False by (by intros ->).
      rewrite decide_False; [done|].
      intros Hqp. destruct (Hanc q Hqp) as [_ Hq']. apply Hq'. by right.
    - intros a Ha. destruct (Hqa a Ha) as [Hf Hnot].
      split; [|by intros ?; apply Hnot; right].
      rewrite Hkind. rewrite decide_False by (intros ->; apply Hnot; by left).
      by case_decide. }
  exists s'. split; [done|]. split; intros k.
  - rewrite Hc', Hcontent. simpl.
    destruct (decide (k = p)) as [->|Hne].
    + rewrite lookup_insert_eq.
      by rewrite (not_elem_of_list_to_map_1 _ _ Hp).
    + by rewrite lookup_insert_ne.
  - rewrite Hk', Hkind, fmap_cons. cbn [fst].
    destruct (decide (k ∈ l.*1)) as [Hin|Hin].
    { by rewrite (decide_True (P := k ∈ p :: l.*1)) by (by right). }
    destruct (decide (k = p)) as [->|Hne].
    { rewrite (decide_True (P := p ∈ p :: l.*1)) by (by left).
      rewrite decide_False; [done|].
      intros (q & Hq & Hpq)%Exists_exists.
      destruct (Hl q ltac:(by right)) as (_ & _ & Hqa).
      destruct (Hqa p Hpq) as [_ Hnot]. apply Hnot. by left. }
    rewrite (decide_False (P := k ∈ p :: l.*1))
      by (by intros [?|?]%elem_of_cons).
    destruct (decide (Exists (λ p0, k ∈ ancestors p0) l.*1)) as [He|He].
    { by rewrite (decide_True (P := Exists _ (p :: l.*1))) by (by right). }
    destruct (decide (k ∈ ancestors p)) as [Ha|Ha].
    + by rewrite (decide_True (P := Exists _ (p :: l.*1))) by (by left).
    + by rewrite (decide_False (P := Exists _ (p :: l.*1)))
        by (by intros [?|?]%Exists_cons).
Qed.

Lemma wellFormed_writeAll l :
  ∀ s s', wellFormed s → writeAll l s = Ok s' → wellFormed s'.
Proof.
  induction l as [|[p c] l IH]; intros s s' Hwf Hw; simpl in Hw.
  - by injection Hw as <-.
  - destruct (write s p c) as [s1|] eqn:E; [|done].
    eapply IH; [|done]. by eapply wellFormed_write.
Qed.

(** ** Removing a path *)

Lemma unlink_kind dir name m k :
  match unlink dir name m !! k with
  | Some (File _ _) => Some KFile
  | Some (Directory _) => Some KDirectory
  | None => None
  end =
  match m !! k with
  | Some (File _ _) => Some KFile
  | Some (Directory _) => Some KDirectory
  | None => None
  end.
Proof.
  unfold unlink. destruct (m !! dir) as [[|children]|] eqn:E; try done.
  destruct (decide (k = dir)) as [->|Hne].
  - by rewrite lookup_insert_eq, E.
  - by rewrite lookup_insert_ne.
Qed.

Lemma wellFormed_remove s raw s' :
  wellFormed s → remove s raw = Ok s' → wellFormed s'.
Proof.
  intros [Hroot Hkeys] Hr. unfold remove in Hr.
  destruct (normalize raw) as [p|] eqn:Hp; [|done]. cbn in Hr.
  destruct (reverse (segments p)) as [|name parent] eqn:Hsegs; [done|].
  destruct (nodes s !! p) eqn:Hn; [|done]. injection Hr as <-.
  assert (p ≠ "/") as Hnotroot.
  { intros ->. by vm_compute in Hsegs. }
  assert (∀ k, k ≠ p → p ∉ ancestors k →
    kindOf {| nodes := unlink (render (reverse parent)) name
                (filter (λ kv, kv.1 ≠ p ∧ p ∉ ancestors kv.1) (nodes s));
              clock := S (clock s) |} k = kindOf s k) as Hkept.
  { intros k Hk Ha. unfold kindOf. simpl. rewrite unlink_kind.
    destruct (nodes s !! k) as [n'|] eqn:Hsk.
    - by rewrite (map_lookup_filter_Some_2 _ _ k n' Hsk).
    - by rewrite (map_lookup_filter_None_2 _ _ k) by (by left). }
  assert (∀ k, is_Some (kindOf {| nodes := unlink (render (reverse parent)) name
                (filter (λ kv, kv.1 ≠ p ∧ p ∉ ancestors kv.1) (nodes s));
              clock := S (clock s) |} k) →
            is_Some (nodes s !! k) ∧ k ≠ p ∧ p ∉ ancestors k) as Hin.
  { intros k. unfold kindOf. simpl. rewrite unlink_kind.
    destruct (filter _ (nodes s) !! k) as [n'|] eqn:Hf; [|by intros []].
    apply map_lookup_filter_Some in Hf as [Hsk [? ?]]. by intros _. }
  split.
  - rewrite Hkept; [done|done|]. by intros ?%elem_of_nil.
  - intros k Hk%kindOf_is_Some. destruct (Hin k Hk) as (Hsk & Hne & Hna).
    destruct (Hkeys k Hsk) as [Hnorm Hanc]. split; [done|].
    intros a Ha. rewrite Hkept; [by apply Hanc| |].
    + intros ->. by apply Hna.
    + intros Hpa. apply Hna. by eapply ancestor_trans.
Qed.

(** ** Snapshot and restore *)

Lemma snapshot_lookup s k : snapshot s !! k = contentOf s k.
Proof.
  unfold snapshot, contentOf. rewrite lookup_omap.
  by destruct (nodes s !! k) as [[]|].
Qed.

Lemma contentOf_file s k : is_Some (contentOf s k) ↔ kindOf s k = Some KFile.
Proof.
  unfold contentOf, kindOf. destruct (nodes s !! k) as [[]|]; split;
    try done; by intros [].
Qed.

Lemma in_snapshot s k :
  k ∈ (map_to_list (snapshot s)).*1 ↔ kindOf s k = Some KFile.
Proof.
  rewrite <- contentOf_file, <- snapshot_lookup, list_elem_of_fmap. split.
  - intros ([k' c] & -> & Hin%elem_of_map_to_list). by exists c.
  - intros [c Hc]. exists (k, c). split; [done|].
    by apply elem_of_map_to_list.
Qed.

(** C9 (amended): on a store satisfying the data-model invariant,
    [restore(snapshot())] succeeds; the restored store has the same
    content at every path, the same files, and as directories exactly the
    root and the ancestors of files, all of which were directories before.
    A directory with no file beneath it is therefore gone, and the two
    stores agree on the kind of every path when every directory other than
    the root has a file beneath it. *)
Theorem C9_restore_snapshot s :
  wellFormed s →
  ∃ s', restore s (snapshot s) = Ok s' ∧
    wellFormed s' ∧
    (∀ k, contentOf s' k = contentOf s k) ∧
    (∀ k, kindOf s' k = Some KFile ↔ kindOf s k = Some KFile) ∧
    (∀ k, kindOf s' k = Some KDirectory ↔
       k = "/" ∨ ∃ p, kindOf s p = Some KFile ∧ k ∈ ancestors p) ∧
    (∀ k, kindOf s' k = Some KDirectory → kindOf s k = Some KDirectory) ∧
    (populated s ↔ ∀ k, kindOf s' k = kindOf s k).
Proof.
  intros Hwf. pose proof Hwf as [Hroot Hkeys]. unfold restore.
  set (s0 := {| nodes := nodes emptyStore; clock := clock s |}).
  assert (∀ k, kindOf s0 k = if decide (k = "/") then Some KDirectory else None)
    as Hs0.
  { intros k. unfold kindOf, s0. simpl. case_decide as Hk.
    - subst k. by rewrite lookup_singleton_eq.
    - by rewrite lookup_singleton_ne. }
  assert (∀ p, kindOf s p = Some KFile →
            normalize p = Ok p ∧ p ≠ "/" ∧
            ∀ a, a ∈ ancestors p → kindOf s a = Some KDirectory) as Hfile.
  { intros p Hp. destruct (Hkeys p) as [Hn Ha].
    - apply kindOf_is_Some. by rewrite Hp.
    - split; [done|]. split; [|done]. intros ->. congruence. }
  destruct (writeAll_Ok (map_to_list (snapshot s)) s0) as (s' & Hs' & Hcontent & Hkind).
  { apply NoDup_fst_map_to_list. }
  { intros p Hp%in_snapshot. destruct (Hfile p Hp) as (Hn & Hne & Ha).
    split; [done|]. split.
    - rewrite Hs0. by rewrite decide_False.
    - intros a Hap. split.
      + rewrite Hs0. by case_decide.
      + rewrite in_snapshot, (Ha a Hap). done. }
  assert (∀ k, kindOf s' k = Some KFile ↔ kindOf s k = Some KFile) as Hf.
  { intros k. rewrite Hkind, Hs0, <- in_snapshot.
    repeat case_decide; split; done. }
  assert (∀ k, kindOf s' k = Some KDirectory ↔
            k = "/" ∨ ∃ p, kindOf s p = Some KFile ∧ k ∈ ancestors p) as Hd.
  { intros k. rewrite Hkind, Hs0.
    destruct (decide (k ∈ (map_to_list (snapshot s)).*1)) as [Hin|Hin].
    { apply in_snapshot in Hin. split; [done|].
      intros [->|(p & Hp & Ha)]; [congruence|].
      destruct (Hfile p Hp) as (_ & _ & Hanc). rewrite (Hanc k Ha) in Hin.
      done. }
    destruct (decide (Exists _ _)) as [He|He].
    { split; [|done]. intros _. right.
      apply Exists_exists in He as (p & Hp%in_snapshot & Ha). by exists p. }
    case_decide as Hk; [by split; [left|]|].
    split; [done|]. intros [->|(p & Hp & Ha)]; [done|].
    exfalso. apply He, Exists_exists. exists p. by rewrite in_snapshot. }
  assert (∀ k, kindOf s' k = Some KDirectory → kindOf s k = Some KDirectory)
    as Hsub.
  { intros k [->|(p & Hp & Ha)]%Hd; [done|].
    destruct (Hfile p Hp) as (_ & _ & Hanc). by apply Hanc. }
  exists s'. split; [done|]. split.
  { eapply wellFormed_writeAll; [|done]. exact wellFormed_empty. }
  split.
  { intros k. rewrite Hcontent.
    rewrite list_to_map_to_list, snapshot_lookup.
    destruct (contentOf s k) eqn:E; [done|].
    unfold contentOf, s0. simpl.
    destruct (decide (k = "/")) as [->|Hk].
    - by rewrite lookup_singleton_eq.
    - by rewrite lookup_singleton_ne. }
  split; [done|]. split; [done|]. split; [done|]. split.
  - intros Hpop k. destruct (kindOf s k) as [[]|] eqn:E.
    + by apply Hf.
    + apply Hd. by apply Hpop.
    + destruct (kindOf s' k) as [[]|] eqn:E'; [| |done].
      * apply Hf in E'. congruence.
      * apply Hsub in E'. congruence.
  - intros Hsame k Hk. apply Hd. by rewrite Hsame.
Qed.

Lemma C9_restore_snapshot_witness :
  ∃ s s', write emptyStore "/a/b.txt" "x" = Ok s ∧
    restore s (snapshot s) = Ok s' ∧
    contentOf s' "/a/b.txt" = Some "x".
Proof.
  destruct (write emptyStore "/a/b.txt" "x") as [s|] eqn:E; [|discriminate E].
  destruct (C9_restore_snapshot s) as (s' & Hr & _ & Hc & _).
  - exact (wellFormed_write _ _ _ _ wellFormed_empty E).
  - exists s, s'. split; [done|]. split; [done|]. rewrite Hc.
    injection E as <-. reflexivity.
Defined.

(** C9 as stated fails: removing the only file of a directory leaves the
    directory in the store, but not in the snapshot, so the restored store
    has nothing at its path. *)
Lemma C9_empty_directory_lost :
  (s1 ← write emptyStore "/a/b.txt" "x";
   s ← remove s1 "/a/b.txt";
   s' ← restore s (snapshot s);
   Ok (kindOf s "/a", kindOf s' "/a", map_to_list (snapshot s)))
  = Ok (Some KDirectory, None, []).
Proof. vm_compute. reflexivity. Qed.

(** ** Resolving an aliased import *)

Lemma firstMatch_elem s candidates p :
  firstMatch s candidates = Some p →
  ∃ c, c ∈ candidates ∧ tryPath s c = Some p.
Proof.
  induction candidates as [|c rest IH]; [done|]. simpl.
  destruct (tryPath s c) as [q|] eqn:E.
  - intros [= ->]. exists c. split; [by left|done].
  - intros (c' & Hin & Hc')%IH. exists c'. split; [by right|done].
Qed.

Lemma firstMatch_is_Some s candidates c :
  c ∈ candidates → is_Some (tryPath s c) → is_Some (firstMatch s candidates).
Proof.
  induction candidates as [|c' rest IH]; [by intros ?%elem_of_nil|].
  intros [->|Hin]%elem_of_cons Hc; simpl.
  - by destruct Hc as [p ->].
  - destruct (tryPath s c'); [done|]. by apply IH.
Qed.

Lemma tryPath_Some s c p :
  tryPath s c = Some p ↔ normalize c = Ok p ∧ kindOf s p = Some KFile.
Proof.
  unfold tryPath. rewrite kindOf_file.
  destruct (normalize c) as [q|]; [|by split; [|intros []]].
  destruct (isFile s q) eqn:E; split.
  - by intros [= ->].
  - by intros [[= ->] _].
  - done.
  - intros [[= ->] ?]. congruence.
Qed.

Lemma candidatePaths_extend exts path c :
  c ∈ candidatePaths exts path → ∃ x, c = path +:+ x.
Proof.
  unfold candidatePaths. rewrite elem_of_cons, elem_of_app, !list_elem_of_fmap.
  intros [->|[(e & -> & _)|(e & -> & _)]].
  - exists "". by rewrite append_empty_r.
  - by exists e.
  - by exists ("/index" +:+ e).
Qed.

(** A path below /components is not the entry file. *)
Lemma below_components x p :
  normalize ("/components/Button" +:+ x) = Ok p → p ≠ "/App.jsx".
Proof.
  intros (_ & _ & ->)%normalize_Ok. unfold segments.
  change ("/components/Button" +:+ x)
    with ("/components" +:+ String "/" ("Button" +:+ x)).
  rewrite split_app. change (split "/" "/components") with [""; "components"].
  simpl app. rewrite filter_cons_False by (intros H; by apply H).
  rewrite filter_cons_True by done. intros [=].
Qed.

(** The two writes of the scenario succeed, and the aliased import of the
    button then resolves to the button's module. *)
Lemma scenario_resolution
    (sourceExtensions stylesheetExtensions : list string)
    (isLocalSpecifier : string → bool) (entry button : string) :
  ".jsx" ∈ sourceExtensions →
  existsb (λ e, endsWith e "@/components/Button") stylesheetExtensions = false →
  ∃ s1 s2,
    write emptyStore "/App.jsx" entry = Ok s1 ∧
    write s1 "/components/Button.jsx" button = Ok s2 ∧
    resolve sourceExtensions stylesheetExtensions isLocalSpecifier s2
      "@/components/Button"
    = Some (ModuleHandle "/components/Button.jsx").
Proof.
  intros Hjsx Hstyle.
  set (s1 := {| nodes := <["/App.jsx" := File entry (clock emptyStore)]>
                  (ensureDirs [] (segments "/App.jsx") (nodes emptyStore));
                clock := S (clock emptyStore) |}).
  set (s2 := {| nodes := <["/components/Button.jsx" := File button (clock s1)]>
                  (ensureDirs [] (segments "/components/Button.jsx") (nodes s1));
                clock := S (clock s1) |}).
  assert (conflicting s1 "/components/Button.jsx" = false) as Hfree
    by (by vm_compute).
  exists s1, s2. split; [by apply write_Ok|]. split; [by apply write_Ok|].
  assert (∀ k, kindOf s2 k = Some KFile →
               k = "/components/Button.jsx" ∨ k = "/App.jsx") as Hfiles.
  { intros k Hk%contentOf_file. unfold s2 in Hk.
    rewrite (written_content s1 _ button Hfree) in Hk.
    case_decide; [by left|]. unfold s1 in Hk.
    rewrite (written_content emptyStore _ entry) in Hk by done.
    case_decide; [by right|]. unfold contentOf, emptyStore in Hk.
    simpl in Hk. destruct (decide (k = "/")) as [->|Hroot].
    - rewrite lookup_singleton_eq in Hk. by destruct Hk.
    - rewrite lookup_singleton_ne in Hk by done. by destruct Hk. }
  unfold resolve, classify. rewrite Hstyle.
  change (String.prefix aliasPrefix "@/components/Button") with true.
  change (aliasToPath "@/components/Button") with "/components/Button".
  cbv iota. f_equal. unfold resolveLocal.
  destruct (firstMatch s2 _) as [p|] eqn:E.
  - f_equal. apply firstMatch_elem in E as (c & Hc & Hp).
    apply candidatePaths_extend in Hc as [x ->].
    apply tryPath_Some in Hp as [Hn Hk].
    destruct (Hfiles p Hk) as [->| ->]; [done|].
    by apply below_components in Hn.
  - assert (is_Some (firstMatch s2 (candidatePaths sourceExtensions
                                      "/components/Button"))) as [? Hm].
    { apply (firstMatch_is_Some _ _ "/components/Button.jsx").
      - unfold candidatePaths. rewrite elem_of_cons, elem_of_app. right. left.
        apply list_elem_of_fmap. by exists ".jsx". 
      - exists "/components/Button.jsx". apply tryPath_Some.
        split; [done|]. unfold kindOf, s2. simpl.
        by rewrite lookup_insert_eq. }
    congruence.
Qed.

(** *** Aliased specifiers in general *)

Lemma prefix_alias specifier :
  String.prefix aliasPrefix specifier = true ↔
  ∃ rest, specifier = "@/" +:+ rest.
Proof.
  unfold aliasPrefix. rewrite String.prefix_correct. split.
  - destruct specifier as [|a [|b rest]]; simpl; try done.
    intros [= -> -> _]. by exists rest.
  - intros [rest ->]. simpl. by destruct rest.
Qed.

Lemma substring_all s : String.substring 0 (String.length s) s = s.
Proof. induction s as [|c s IH]; [done|]. simpl. by rewrite IH. Qed.

Lemma aliasToPath_alias rest : aliasToPath ("@/" +:+ rest) = String "/" rest.
Proof.
  unfold aliasToPath, aliasPrefix. f_equal.
  change (String.length ("@/" +:+ rest) - String.length "@/")
    with (String.length rest - 0).
  rewrite Nat.sub_0_r.
  change (String.substring (String.length "@/") ?n ("@/" +:+ rest))
    with (String.substring 0 n rest).
  apply substring_all.
Qed.

Lemma firstMatch_first s candidates q :
  firstMatch s candidates = Some q ↔ firstMatching s candidates q.
Proof.
  unfold firstMatching. induction candidates as [|c rest IH]; simpl.
  { split; [done|]. by intros (i & c & Hi & _). }
  destruct (tryPath s c) as [p|] eqn:E.
  - split.
    + intros [= ->]. exists 0, c. split; [done|]. split; [done|]. lia.
    + intros ([|i] & c0 & Hi & Hq & Hbefore).
      * simpl in Hi. congruence.
      * specialize (Hbefore 0 c ltac:(lia) eq_refl). congruence.
  - rewrite IH. split.
    + intros (i & c0 & Hi & Hq & Hbefore). exists (S i), c0.
      split; [done|]. split; [done|]. intros [|j] c' Hj Hc'.
      * simpl in Hc'. congruence.
      * apply (Hbefore j); [lia|done].
    + intros ([|i] & c0 & Hi & Hq & Hbefore).
      * simpl in Hi. congruence.
      * exists i, c0. split; [done|]. split; [done|]. intros j c' Hj Hc'.
        apply (Hbefore (S j)); [lia|done].
Qed.

Lemma firstMatch_None s candidates :
  firstMatch s candidates = None ↔ ∀ c, c ∈ candidates → tryPath s c = None.
Proof.
  induction candidates as [|c rest IH]; simpl.
  { split; [by intros _ c ?%elem_of_nil|done]. }
  destruct (tryPath s c) as [p|] eqn:E.
  - split; [done|]. intros H. specialize (H c ltac:(by left)). congruence.
  - rewrite IH. split.
    + intros H c' [->|Hin]%elem_of_cons; [done|by apply H].
    + intros H c' Hin. apply H. by right.
Qed.

(** C4: the alias is "@/". A specifier is aliased exactly when it is not
    a stylesheet specifier and begins with "@/"; the aliased specifier
    "@/rest" denotes the store-relative path "/rest"; it resolves against
    the store to the handle of the first candidate of that path that is a
    file (the literal path, then each source extension, then the index
    file), and to a placeholder exactly when no candidate is a file; and
    after the two writes of the scenario '@/components/Button' resolves to
    the handle of /components/Button.jsx, provided ".jsx" is a recognized
    source extension. *)
Theorem C4_alias_resolution
    (sourceExtensions stylesheetExtensions : list string)
    (isLocalSpecifier : string → bool) :
  let classified := classify stylesheetExtensions isLocalSpecifier in
  let resolved := resolve sourceExtensions stylesheetExtensions isLocalSpecifier in
  let styled specifier :=
    existsb (λ e, endsWith e specifier) stylesheetExtensions in
  (∀ specifier,
     classified specifier = Aliased ↔
     styled specifier = false ∧ ∃ rest, specifier = "@/" +:+ rest) ∧
  (∀ rest, aliasToPath ("@/" +:+ rest) = String "/" rest) ∧
  (∀ s rest,
     styled ("@/" +:+ rest) = false →
     (∀ q, resolved s ("@/" +:+ rest) = Some (ModuleHandle q) ↔
           firstMatching s (candidatePaths sourceExtensions (String "/" rest)) q) ∧
     (resolved s ("@/" +:+ rest) = Some Placeholder ↔
      ∀ c, c ∈ candidatePaths sourceExtensions (String "/" rest) →
           tryPath s c = None) ∧
     (∀ c q, c ∈ candidatePaths sourceExtensions (String "/" rest) →
             normalize c = Ok q → kindOf s q = Some KFile →
             ∃ q', resolved s ("@/" +:+ rest) = Some (ModuleHandle q') ∧
                   kindOf s q' = Some KFile)) ∧
  (∀ entry button,
     ".jsx" ∈ sourceExtensions →
     styled "@/components/Button" = false →
     ∃ s1 s2,
       write emptyStore "/App.jsx" entry = Ok s1 ∧
       write s1 "/components/Button.jsx" button = Ok s2 ∧
       resolved s2 "@/components/Button"
       = Some (ModuleHandle "/components/Button.jsx")).
Proof.
  intros classified resolved styled.
  assert (∀ specifier,
     classified specifier = Aliased ↔
     styled specifier = false ∧ ∃ rest, specifier = "@/" +:+ rest) as Hclass.
  { intros specifier. unfold classified, classify, styled.
    rewrite <- prefix_alias.
    destruct (existsb _ _); [by split; [|intros []]|].
    destruct (String.prefix aliasPrefix specifier); [done|].
    split; [|by intros []]. by destruct (isLocalSpecifier specifier). }
  split; [done|]. split; [apply aliasToPath_alias|]. split.
  - intros s rest Hstyle.
    assert (resolved s ("@/" +:+ rest)
            = Some (resolveLocal sourceExtensions s (String "/" rest))) as ->.
    { unfold resolved, resolve. fold classified.
      rewrite (proj2 (Hclass _)) by (split; [done|by exists rest]).
      by rewrite aliasToPath_alias. }
    unfold resolveLocal. split; [|split].
    + intros q. rewrite <- firstMatch_first.
      destruct (firstMatch s _); split; congruence.
    + rewrite <- firstMatch_None. destruct (firstMatch s _); split; congruence.
    + intros c q Hc Hn Hk.
      destruct (firstMatch_is_Some s _ c Hc) as [q' Hq'].
      { exists q. by apply tryPath_Some. }
      exists q'. rewrite Hq'. split; [done|].
      apply firstMatch_elem in Hq' as (c' & _ & Hc').
      by apply tryPath_Some in Hc' as [_ ?].
  - intros entry button. apply scenario_resolution.
Qed.

Lemma C4_alias_resolution_witness :
  ∃ s1 s2,
    write emptyStore "/App.jsx" "import B from '@/components/Button'" = Ok s1 ∧
    write s1 "/components/Button.jsx" "export default () => null" = Ok s2 ∧
    resolve [".js"; ".jsx"; ".ts"; ".tsx"] [".css"] (String.prefix ".") s2
      "@/components/Button"
    = Some (ModuleHandle "/components/Button.jsx").
Proof.
  destruct (proj2 (proj2 (proj2
              (C4_alias_resolution [".js"; ".jsx"; ".ts"; ".tsx"] [".css"]
                 (String.prefix "."))))
              "import B from '@/components/Button'"
              "export default () => null")
    as (s1 & s2 & H1 & H2 & H3).
  - by right; left.
  - reflexivity.
  - by exists s1, s2.
Defined.

(** ** The store on the scenarios of the design *)

Example auto_created_ancestors :
  (s ← write emptyStore "/a/b/c.txt" "x";
   Ok (kindOf s "/a", kindOf s "/a/b", contentOf s "/a/b/c.txt"))
  = Ok (Some KDirectory, Some KDirectory, Some "x").
Proof. vm_compute. reflexivity. Qed.

Example remove_is_recursive :
  (s ← write emptyStore "/a/b/c.txt" "x";
   s ← remove s "/a";
   read s "/a/b/c.txt")
  = Failed NotFoundError.
Proof. vm_compute. reflexivity. Qed.

Example write_below_a_file_conflicts :
  (s ← write emptyStore "/a/b" "x"; write s "/a/b/c.txt" "y")
  = Failed ConflictError.
Proof. vm_compute. reflexivity. Qed.

Example parent_traversal_rejected :
  normalize "/a/../b" = Failed PathError.
Proof. reflexivity. Qed.

(** * Further properties of ToolActionLabel *)

(** ** When the component throws *)

Lemma get_prop v k : isNullish v = false → get v k = Normal (prop v k).
Proof. by destruct v. Qed.

Lemma get_nullish v k : isNullish v = true → get v k = Throw TypeError.
Proof. by destruct v. Qed.

Lemma fileNameOf_cases v :
  (pathLike v = true ∧ ∃ f, fileNameOf v = Normal f) ∨
  (pathLike v = false ∧ fileNameOf v = Throw TypeError).
Proof. destruct v; simpl; eauto. Qed.

Lemma isCase_exclusive v a b : a ≠ b → isCase v a = true → isCase v b = false.
Proof.
  intros Hab ->%isCase_true. apply isCase_false. congruence.
Qed.

(** The message either is built or fails with a TypeError, and [mustThrow]
    tells which. *)
Lemma message_outcome toolName v :
  (mustThrow toolName v = true ∧
   getActionMessage toolName v = Throw TypeError) ∨
  (mustThrow toolName v = false ∧
   ∃ m, getActionMessage toolName v = Normal m).
Proof.
  unfold mustThrow, getActionMessage.
  destruct (isNullish v) eqn:Hv.
  { left. rewrite (get_nullish _ "path" Hv). by split. }
  rewrite !(get_prop _ _ Hv). cbn [orb mbind completion_bind].
  destruct (fileNameOf_cases (prop v "path")) as [[-> [f ->]]|[-> ->]];
    [|by left].
  cbn [negb orb mbind completion_bind].
  destruct (decide (toolName = "str_replace_editor")) as [->|Hed].
  { right. split; [done|]. repeat case_match; by eexists. }
  destruct (decide (toolName = "file_manager")) as [->|Hfm].
  2:{ right. rewrite bool_decide_eq_false_2 by done. split; [done|].
      by eexists. }
  rewrite bool_decide_eq_true_2 by done. cbn [andb].
  destruct (fileNameOf_cases (or_else (prop v "old_path") (prop v "path")))
    as [[-> [g ->]]|[-> ->]]; [|by left].
  cbn [negb orb mbind completion_bind].
  destruct (isCase (prop v "command") "delete") eqn:Hdel.
  { rewrite (isCase_exclusive _ "delete" "rename") by done.
    right. split; [done|]. by eexists. }
  destruct (isCase (prop v "command") "rename") eqn:Hren.
  - destruct (fileNameOf_cases (prop v "new_path")) as [[-> [h ->]]|[-> ->]].
    + right. split; [done|]. by eexists.
    + by left.
  - right. split; [done|]. by eexists.
Qed.

(** X1: the component never lets a parse error out: whatever it throws is
    a TypeError, and it throws exactly when the parsed arguments are null
    or undefined, when path is neither a string nor nullish, or, for
    file_manager, when [old_path || path] is such a value or the command
    is "rename" and new_path is such a value. *)
Theorem X1_throws_exactly JSON_parse toolName args :
  (∀ e, ToolActionLabel JSON_parse toolName args = Throw e → e = TypeError) ∧
  ((∃ e, ToolActionLabel JSON_parse toolName args = Throw e) ↔
   mustThrow toolName (parseArgs JSON_parse args) = true).
Proof.
  unfold ToolActionLabel.
  destruct (message_outcome toolName (parseArgs JSON_parse args))
    as [[Hm ->]|[Hm [m ->]]]; cbn.
  - split; [by intros e [= <-]|]. split; [done|]. by exists TypeError.
  - split; [done|]. rewrite Hm. split; [by intros [e ?]|done].
Qed.

Lemma X1_throws_exactly_witness :
  ToolActionLabel noParse "file_manager"
    (ArgsObject (obj [("command", JStr "rename"); ("path", JStr "/a.js");
                      ("new_path", JBool true)]))
  = Throw TypeError.
Proof.
  destruct (proj2 (proj2 (X1_throws_exactly noParse "file_manager"
    (ArgsObject (obj [("command", JStr "rename"); ("path", JStr "/a.js");
                      ("new_path", JBool true)])))) eq_refl) as [e He].
  rewrite He. f_equal.
  exact (proj1 (X1_throws_exactly noParse "file_manager" _) e He).
Defined.

(** ** What the component reads *)

(** Two parsed arguments give the same message when they agree on the
    command and on the file names the branch taken computes. *)
Lemma message_congr toolName v v' :
  isNullish v = false → isNullish v' = false →
  prop v "command" = prop v' "command" →
  fileNameOf (prop v "path") = fileNameOf (prop v' "path") →
  (toolName = "file_manager" →
   fileNameOf (or_else (prop v "old_path") (prop v "path"))
   = fileNameOf (or_else (prop v' "old_path") (prop v' "path")) ∧
   (isCase (prop v "command") "rename" = true →
    fileNameOf (prop v "new_path") = fileNameOf (prop v' "new_path"))) →
  getActionMessage toolName v = getActionMessage toolName v'.
Proof.
  intros Hv Hv' Hc Hp Hfm. unfold getActionMessage.
  rewrite !(get_prop _ _ Hv), !(get_prop _ _ Hv'). cbn [mbind completion_bind].
  rewrite <- Hc, <- Hp. destruct (fileNameOf (prop v "path")) as [f|]; [|done].
  cbn [mbind completion_bind].
  destruct (decide (toolName = "str_replace_editor")); [done|].
  destruct (decide (toolName = "file_manager")) as [Ht|]; [|done].
  destruct (Hfm Ht) as [<- Hnew].
  destruct (fileNameOf (or_else _ _)) as [g|]; [|done].
  cbn [mbind completion_bind].
  destruct (isCase (prop v "command") "delete"); [done|].
  destruct (isCase (prop v "command") "rename"); [|done].
  by rewrite <- Hnew.
Qed.

Lemma label_congr JSON_parse toolName args args' :
  getActionMessage toolName (parseArgs JSON_parse args)
  = getActionMessage toolName (parseArgs JSON_parse args') →
  ToolActionLabel JSON_parse toolName args
  = ToolActionLabel JSON_parse toolName args'.
Proof. unfold ToolActionLabel. by intros ->. Qed.

(** X2: the label depends on the arguments only through path and command,
    and for file_manager also old_path and, when the command is "rename",
    new_path: two argument objects that agree on those properties render
    the same element or both throw, whatever else they hold. *)
Theorem X2_reads_only JSON_parse toolName (props props' : gmap string JsValue) :
  (∀ k, k ∈ readKeys toolName (prop (JObj props) "command") →
        props !! k = props' !! k) →
  ToolActionLabel JSON_parse toolName (ArgsObject props)
  = ToolActionLabel JSON_parse toolName (ArgsObject props').
Proof.
  intros Hk. apply label_congr, message_congr; try done;
    cbn [parseArgs prop].
  - rewrite (Hk "command"); [done|]. unfold readKeys. set_solver.
  - rewrite (Hk "path"); [done|]. unfold readKeys. set_solver.
  - intros ->. assert (props !! "path" = props' !! "path") as <-.
    { apply Hk. unfold readKeys. set_solver. }
    assert (props !! "old_path" = props' !! "old_path") as <-.
    { apply Hk. unfold readKeys. rewrite decide_True by done. set_solver. }
    split; [done|]. intros Hren.
    rewrite (Hk "new_path"); [done|]. unfold readKeys. cbn [prop].
    rewrite decide_True by done. rewrite Hren. set_solver.
Qed.

Lemma X2_reads_only_witness :
  ToolActionLabel noParse "str_replace_editor" (ArgsObject replaceArgs)
  = ToolActionLabel noParse "str_replace_editor"
      (ArgsObject (obj [("command", JStr "str_replace");
                        ("path", JStr "/App.jsx")])).
Proof.
  apply X2_reads_only. intros k Hk. vm_compute in Hk.
  apply elem_of_cons in Hk as [->|Hk]; [reflexivity|].
  apply elem_of_cons in Hk as [->|Hk]; [reflexivity|].
  by apply elem_of_nil in Hk.
Defined.

(** ** Only the final segment of a path is shown *)

Lemma finalSegment_nonempty p f : finalSegment p f → f ≠ "" → nonEmpty p = true.
Proof.
  intros [_ [->|[pre ->]]] Hf; apply nonEmpty_true; [done|].
  by destruct pre.
Qed.

(** X3: of a path the label shows the final segment and nothing else:
    replacing path, new_path, or an old_path with a non-empty final
    segment, by another string with the same final segment leaves the
    rendered element unchanged, for every tool. *)
Theorem X3_only_final_segment JSON_parse toolName
    (props : gmap string JsValue) k p p' f :
  k ∈ ["path"; "old_path"; "new_path"] →
  (k = "old_path" → f ≠ "") →
  finalSegment p f → finalSegment p' f →
  ToolActionLabel JSON_parse toolName (ArgsObject (<[k := JStr p]> props))
  = ToolActionLabel JSON_parse toolName (ArgsObject (<[k := JStr p']> props)).
Proof.
  intros Hk Hold Hp Hp'.
  assert (fileNameOf (JStr p) = fileNameOf (JStr p')) as Hsame.
  { by rewrite (fileNameOf_segment (JStr p) f), (fileNameOf_segment (JStr p') f). }
  assert (∀ j, j ≠ k →
            (<[k := JStr p]> props) !! j = (<[k := JStr p']> props) !! j) as Hne.
  { intros j Hj. by rewrite !lookup_insert_ne. }
  apply label_congr, message_congr; try done; cbn [parseArgs prop].
  - rewrite Hne; [done|]. intros <-.
    rewrite !elem_of_cons, elem_of_nil in Hk. by destruct Hk as [?|[?|[?|?]]].
  - destruct (decide (k = "path")) as [->|Hkp].
    + by rewrite !lookup_insert_eq.
    + by rewrite Hne.
  - intros _. split.
    + destruct (decide (k = "old_path")) as [->|Hko].
      * rewrite !lookup_insert_eq, !lookup_insert_ne by done.
        cbn [from_option id]. unfold or_else.
        change (truthy (JStr p)) with (nonEmpty p).
        change (truthy (JStr p')) with (nonEmpty p').
        by rewrite (finalSegment_nonempty p f), (finalSegment_nonempty p' f)
          by auto.
      * rewrite (Hne "old_path") by done.
        destruct (decide (k = "path")) as [->|Hkp]; [|by rewrite Hne].
        rewrite !lookup_insert_eq. cbn [from_option id]. unfold or_else.
        by destruct (truthy _).
    + intros _. destruct (decide (k = "new_path")) as [->|Hkn].
      * by rewrite !lookup_insert_eq.
      * by rewrite Hne.
Qed.

Lemma X3_only_final_segment_witness :
  ToolActionLabel noParse "file_manager"
    (ArgsObject (<["old_path" := JStr "/src/ui/Button.tsx"]> zeroOldPathArgs))
  = ToolActionLabel noParse "file_manager"
      (ArgsObject (<["old_path" := JStr "Button.tsx"]> zeroOldPathArgs)).
Proof.
  apply (X3_only_final_segment noParse "file_manager" zeroOldPathArgs
           "old_path" "/src/ui/Button.tsx" "Button.tsx" "Button.tsx").
  - by right; left.
  - discriminate.
  - split; [reflexivity|]. right. by exists "/src/ui".
  - split; [reflexivity|]. by left.
Defined.

(** ** Arguments given as a string *)

Lemma prop_not_object v k :
  (∀ props, v ≠ JObj props) → prop v k = JUndefined.
Proof. intros Hv. destruct v; try done. by destruct (Hv props). Qed.

(** X4: a string [args] renders as the value it parses to: as the parsed
    object when it is the JSON text of an object; as absent arguments when
    it is empty, unparsable, or the JSON text of a number, string, boolean
    or array; and the JSON text of null makes the component throw. *)
Theorem X4_string_args JSON_parse toolName s :
  (∀ props, s ≠ "" → JSON_parse s = Normal (JObj props) →
     ToolActionLabel JSON_parse toolName (ArgsString s)
     = ToolActionLabel JSON_parse toolName (ArgsObject props)) ∧
  (s = "" ∨ (∃ e, JSON_parse s = Throw e) ∨
   (∃ v, JSON_parse s = Normal v ∧ isNullish v = false ∧
         ∀ props, v ≠ JObj props) →
     ToolActionLabel JSON_parse toolName (ArgsString s)
     = ToolActionLabel JSON_parse toolName ArgsAbsent) ∧
  (s ≠ "" → JSON_parse s = Normal JNull →
     ToolActionLabel JSON_parse toolName (ArgsString s) = Throw TypeError).
Proof.
  split; [|split].
  - intros props Hs Hp. apply label_congr. unfold parseArgs.
    by rewrite (nonEmpty_true _ Hs), Hp.
  - intros [->|[[e He]|(v & Hp & Hv & Hobj)]]; apply label_congr.
    + done.
    + unfold parseArgs. rewrite He. by destruct (nonEmpty s).
    + unfold parseArgs. rewrite Hp. destruct (nonEmpty s); [|done].
      apply message_congr; try done;
        by rewrite !(prop_not_object v) by done.
  - intros Hs Hp. unfold ToolActionLabel, parseArgs.
    by rewrite (nonEmpty_true _ Hs), Hp.
Qed.

Lemma X4_string_args_witness :
  ToolActionLabel noParse "file_manager" (ArgsString "invalid json{")
  = ToolActionLabel noParse "file_manager" ArgsAbsent.
Proof.
  apply (proj1 (proj2 (X4_string_args noParse "file_manager" "invalid json{"))).
  right; left. by exists SyntaxError.
Defined.

(** ** A falsy old_path *)

(** X5: for every tool, an old_path that is falsy (null, false, zero, NaN
    or the empty string) counts for nothing: the component renders, or
    throws, as it does on the same arguments without old_path. *)
Theorem X5_falsy_old_path JSON_parse toolName (props : gmap string JsValue) v :
  truthy v = false →
  ToolActionLabel JSON_parse toolName (ArgsObject (<["old_path" := v]> props))
  = ToolActionLabel JSON_parse toolName (ArgsObject (delete "old_path" props)).
Proof.
  intros Hv. apply label_congr, message_congr; try done;
    cbn [parseArgs prop].
  - by rewrite lookup_insert_ne, lookup_delete_ne.
  - by rewrite lookup_insert_ne, lookup_delete_ne.
  - intros _. rewrite lookup_insert_eq, lookup_delete_eq.
    rewrite !lookup_insert_ne, !lookup_delete_ne by done.
    cbn [from_option id]. unfold or_else. by rewrite Hv.
Qed.

Lemma X5_falsy_old_path_witness :
  shownText (ToolActionLabel noParse "file_manager"
               (ArgsObject (<["old_path" := JNum (S754_zero false)]>
                              zeroOldPathArgs)))
  = Normal "Renaming b.js to c.js".
Proof.
  rewrite (X5_falsy_old_path noParse "file_manager" zeroOldPathArgs
             (JNum (S754_zero false)) eq_refl).
  reflexivity.
Defined.

(** ** The shape of what is rendered *)

Lemma get_Normal v k x : get v k = Normal x → x = prop v k.
Proof. destruct v; simpl; congruence. Qed.

Lemma message_shape toolName v m :
  getActionMessage toolName v = Normal m →
  icon m = iconFor toolName (prop v "command") ∧
  (toolName ≠ "" → text m ≠ "").
Proof.
  unfold getActionMessage, iconFor. intros H.
  destruct (get v "path") as [path|] eqn:Ep; [|discriminate H].
  cbn [mbind completion_bind] in H.
  destruct (fileNameOf path) as [f|]; [|discriminate H].
  cbn [mbind completion_bind] in H.
  destruct (get v "command") as [command|] eqn:Ec; [|discriminate H].
  cbn [mbind completion_bind] in H.
  apply get_Normal in Ec as ->.
  destruct (decide (toolName = "str_replace_editor")).
  { repeat case_match; injection H as <-; (split; [done|]); intros _; cbn;
      discriminate. }
  destruct (decide (toolName = "file_manager")).
  2:{ injection H as <-. by split. }
  destruct (get v "old_path") as [old|]; [|discriminate H].
  cbn [mbind completion_bind] in H.
  destruct (fileNameOf (or_else old path)) as [g|]; [|discriminate H].
  cbn [mbind completion_bind] in H.
  destruct (isCase (prop v "command") "delete").
  { injection H as <-. split; [done|]. intros _. cbn. discriminate. }
  destruct (isCase (prop v "command") "rename").
  - destruct (get v "new_path") as [new|]; [|discriminate H].
    cbn [mbind completion_bind] in H.
    destruct (fileNameOf new) as [h|]; [|discriminate H].
    injection H as <-. split; [done|]. intros _. cbn. discriminate.
  - injection H as <-. split; [done|]. intros _. cbn.
    case_match; discriminate.
Qed.

(** X6: whenever the component renders, the element is the flex wrapper
    holding the icon of the tool and command followed by one span with the
    label text; the icon depends on nothing else, and the text is
    non-empty unless the tool name itself is empty. *)
Theorem X6_rendered_shape JSON_parse toolName args el :
  ToolActionLabel JSON_parse toolName args = Normal el →
  ∃ label,
    el = Tag "div" "inline-flex items-center gap-2"
           [iconFor toolName (prop (parseArgs JSON_parse args) "command");
            Tag "span" "text-neutral-700" [Text label]] ∧
    textContent el = label ∧
    (toolName ≠ "" → label ≠ "").
Proof.
  unfold ToolActionLabel. intros H.
  destruct (getActionMessage _ _) as [m|] eqn:E; [|discriminate H].
  injection H as <-. destruct (message_shape _ _ _ E) as [Hi Ht].
  exists (text m). rewrite Hi. split; [done|]. split; [|done].
  unfold iconFor. repeat case_match; apply textContent_label.
Qed.

Lemma X6_rendered_shape_witness :
  ∃ label,
    ToolActionLabel noParse "file_manager" (ArgsObject zeroOldPathArgs)
    = Normal (Tag "div" "inline-flex items-center gap-2"
                [Icon FolderEdit "w-3 h-3 text-orange-600";
                 Tag "span" "text-neutral-700" [Text label]]) ∧
    label ≠ "".
Proof.
  destruct (ToolActionLabel noParse "file_manager" (ArgsObject zeroOldPathArgs))
    as [el|] eqn:E; [|discriminate E].
  destruct (X6_rendered_shape noParse "file_manager" _ el E)
    as (label & -> & _ & Hne).
  exists label. split; [reflexivity|]. by apply Hne.
Defined.

(** ** Tools the component does not know *)

(** X7: for a tool name other than the two known ones, the component
    renders exactly when the parsed arguments are not null and their path
    is a string or nullish, and then shows the neutral edit icon and the
    tool name itself, whatever the command. *)
Theorem X7_unknown_tool JSON_parse toolName args :
  toolName ≠ "str_replace_editor" → toolName ≠ "file_manager" →
  ToolActionLabel JSON_parse toolName args =
    if isNullish (parseArgs JSON_parse args)
       || negb (pathLike (prop (parseArgs JSON_parse args) "path"))
    then Throw TypeError
    else Normal (Tag "div" "inline-flex items-center gap-2"
                   [Icon FileEdit "w-3 h-3 text-neutral-600";
                    Tag "span" "text-neutral-700" [Text toolName]]).
Proof.
  intros Hed Hfm. unfold ToolActionLabel, getActionMessage.
  destruct (isNullish _) eqn:Hv.
  { by rewrite (get_nullish _ "path" Hv). }
  rewrite !(get_prop _ _ Hv). cbn [orb mbind completion_bind].
  destruct (fileNameOf_cases (prop (parseArgs JSON_parse args) "path"))
    as [[-> [f ->]]|[-> ->]]; [|done].
  cbn [negb mbind completion_bind].
  by rewrite !decide_False by done.
Qed.

Lemma X7_unknown_tool_witness :
  shownText (ToolActionLabel noParse "unknown_tool" (ArgsObject replaceArgs))
  = Normal "unknown_tool".
Proof.
  rewrite (X7_unknown_tool noParse "unknown_tool" (ArgsObject replaceArgs));
    [reflexivity|discriminate|discriminate].
Defined.
